(** * Mail.tm event server: a shallow embedding of [mailtm/server/srv.py]

    The development follows the class [MailServerBase]: its registry of
    handlers, the dispatcher, the two change detectors, the logger and the
    poll loop ([runner]) with its entry point [run].

    The mail client, the clock, the banner file and the user's handlers are
    the environment.  Their answers are read from explicit scripts, and every
    interaction with them is appended to a chronological trace of actions, so
    that statements about "how often" and "in which order" are statements
    about that trace. *)

From stdpp Require Import base decidable option list strings gmap fin_maps pretty.
From Stdlib Require Import ZArith Lia.

Open Scope Z_scope.
Open Scope string_scope.
Open Scope list_scope.

(** ** Data model *)

(** Modelled from the spec: the entity classes of [mailtm.abc.modals] are not
    part of the sources at hand.  A message has an identifier, a sender
    address ([message_from.address] in the code) and further payload fields,
    kept here as one opaque field. *)
Record Message := {
  msg_id : string;
  msg_from_address : string;
  msg_payload : string;
}.

(** Modelled from the spec: a domain has an identifier and a readable name
    ([domain_name] in the code). *)
Record Domain := {
  dom_id : string;
  domain_name : string;
}.

(** The views returned by [get_messages] and [get_domains]; index 0 is the
    newest entity. *)
Record MessageView := { messages : list Message }.
Record DomainView := { domains : list Domain }.

(** The classes used as keys of [self.handlers].  [subscribe] accepts any
    subclass of [BaseEvent]; all classes other than the two the detectors
    produce are kept apart by their name. *)
Inductive EventClass :=
| NewMessage
| DomainChange
| OtherEvent (cls : string).

(** Event instances.  The client handle and the back reference to the server
    that the constructors receive are not represented: nothing in this file
    reads them. *)
Inductive Event :=
| NewMessageEv (new_message : Message)
| DomainChangeEv (new_domain : Domain)
| OtherEv (cls : string).

(** [type(event)] *)
Definition type_of (e : Event) : EventClass :=
  match e with
  | NewMessageEv _ => NewMessage
  | DomainChangeEv _ => DomainChange
  | OtherEv cls => OtherEvent cls
  end.

(** Python exceptions, split the way [except Exception] splits them. *)
Inductive exn :=
| PyException (msg : string)       (* Exception and its subclasses *)
| KeyboardInterrupt                (* a BaseException that is no Exception *)
| PyBaseException (msg : string).  (* SystemExit, CancelledError, ... *)

Definition is_Exception (e : exn) : bool :=
  match e with
  | PyException _ => true
  | _ => false
  end.

(** [str(e)] *)
Definition str_exn (e : exn) : string :=
  match e with
  | PyException msg => msg
  | KeyboardInterrupt => EmptyString
  | PyBaseException msg => msg
  end.

Inductive severity := INFO | WARNING | ERROR.

(** The four kinds of line [log] can print; colour codes and the time stamp
    are left out. *)
Inductive tag := TagInfo | TagWarning | TagError | TagUnrecognized.

Inductive slot := LastMsg | LastDomain.

(** Everything the server does that is visible from outside, plus the writes
    to the two last-seen holders. *)
Inductive Action :=
| ABanner (text : string)                 (* print(details) in _banner *)
| APrint (t : tag) (message : string)     (* a print of log *)
| ASleep (secs : Z)                       (* asyncio.sleep *)
| AGetMessages                            (* mail_client.get_messages() *)
| AGetDomains                             (* mail_client.get_domains() *)
| AClose                                  (* mail_client.close() *)
| AWrite (sl : slot)                      (* a store into a last-seen holder *)
| ACall (h : string) (e : Event)          (* a handler is entered *)
| ADone (h : string)                      (* that handler returned *)
| AFail (h : string) (x : exn)            (* that handler raised *)
| ALoopClose.                             (* loop.close() in run *)

(** A handler is user code.  It is known by a name, and its behaviour may
    depend on everything that happened before it was entered; it either
    returns or raises.  Handlers are taken not to reach back into the server
    object. *)
Record Handler := {
  hname : string;
  hbody : list Action -> Event -> option exn;
}.

#[global] Instance event_type_eq_dec : EqDecision EventClass.
Proof. solve_decision. Defined.

Definition event_type_enc (t : EventClass) : bool + string :=
  match t with
  | NewMessage => inl true
  | DomainChange => inl false
  | OtherEvent cls => inr cls
  end.

Definition event_type_dec (x : bool + string) : EventClass :=
  match x with
  | inl true => NewMessage
  | inl false => DomainChange
  | inr cls => OtherEvent cls
  end.

#[global] Instance event_type_countable : Countable EventClass.
Proof.
  apply (inj_countable' event_type_enc event_type_dec).
  intros []; reflexivity.
Defined.

#[global] Instance severity_eq_dec : EqDecision severity.
Proof. solve_decision. Defined.

#[global] Instance slot_eq_dec : EqDecision slot.
Proof. solve_decision. Defined.

(** The attributes of a [MailServerBase] instance.  [server_auth] and
    [mail_client] belong to the environment. *)
Record Server := {
  _banner_enabled : option bool;
  _banner_path : option string;
  _pooling_rate : option Z;
  _suppress_errors : option bool;
  _logging_enabled : option bool;
  handlers : gmap EventClass (list Handler);
  _last_msg : list Message;
  _last_domain : list Domain;
}.

(** [MailServerBase.__init__] *)
Definition init (pooling_rate : option Z) (banner : option bool)
    (banner_path : option string) (suppress_errors enable_logging : option bool)
    : Server :=
  {| _banner_enabled := banner;
     _banner_path := banner_path;
     _pooling_rate := pooling_rate;
     _suppress_errors := suppress_errors;
     _logging_enabled := enable_logging;
     handlers := ∅;
     _last_msg := [];
     _last_domain := [] |}.

Definition default_banner : string := "mailtm/server/assets/banner.txt".

(** [MailServerBase(server_auth, pooling_rate)], every optional argument at
    its default. *)
Definition init_default (pooling_rate : option Z) : Server :=
  init pooling_rate (Some true) (Some default_banner) (Some false) (Some false).

Definition set_handlers (hs : gmap EventClass (list Handler)) (s : Server) : Server :=
  {| _banner_enabled := _banner_enabled s;
     _banner_path := _banner_path s;
     _pooling_rate := _pooling_rate s;
     _suppress_errors := _suppress_errors s;
     _logging_enabled := _logging_enabled s;
     handlers := hs;
     _last_msg := _last_msg s;
     _last_domain := _last_domain s |}.

Definition set_last_msg (l : list Message) (s : Server) : Server :=
  {| _banner_enabled := _banner_enabled s;
     _banner_path := _banner_path s;
     _pooling_rate := _pooling_rate s;
     _suppress_errors := _suppress_errors s;
     _logging_enabled := _logging_enabled s;
     handlers := handlers s;
     _last_msg := l;
     _last_domain := _last_domain s |}.

Definition set_last_domain (l : list Domain) (s : Server) : Server :=
  {| _banner_enabled := _banner_enabled s;
     _banner_path := _banner_path s;
     _pooling_rate := _pooling_rate s;
     _suppress_errors := _suppress_errors s;
     _logging_enabled := _logging_enabled s;
     handlers := handlers s;
     _last_msg := _last_msg s;
     _last_domain := l |}.

(** ** Registration *)

(** The body shared by the decorator of [subscribe], [on_new_message] and
    [on_new_domain]: create the list if the key is missing, then append. *)
Definition register (event_type : EventClass) (handler_func : Handler)
    (reg : gmap EventClass (list Handler)) : gmap EventClass (list Handler) :=
  let reg1 :=
    match reg !! event_type with
    | None => <[event_type := []]> reg
    | Some _ => reg
    end in
  <[event_type := default [] (reg1 !! event_type) ++ [handler_func]]> reg1.

Definition subscribe (event_type : EventClass) (handler_func : Handler)
    (s : Server) : Server :=
  set_handlers (register event_type handler_func (handlers s)) s.

Definition on_new_message (func : Handler) (s : Server) : Server :=
  set_handlers (register NewMessage func (handlers s)) s.

Definition on_new_domain (func : Handler) (s : Server) : Server :=
  set_handlers (register DomainChange func (handlers s)) s.

(** ** The monad of server code

    A computation reads and writes the server object, appends to the trace,
    and ends in one of three ways: it returns, it raises, or it is still
    suspended when the script of the environment has been used up
    ([Pending]). *)

Record World := {
  srv : Server;
  trace : list Action;
}.

Inductive result (A : Type) :=
| Ok (a : A)
| Raise (e : exn)
| Pending.
Arguments Ok {A} a.
Arguments Raise {A} e.
Arguments Pending {A}.

Definition IO (A : Type) : Type := World -> World * result A.

Definition ret {A} (a : A) : IO A := fun w => (w, Ok a).

Definition bind {A B} (m : IO A) (k : A -> IO B) : IO B :=
  fun w =>
    match m w with
    | (w', Ok a) => k a w'
    | (w', Raise e) => (w', Raise e)
    | (w', Pending) => (w', Pending)
    end.

Declare Scope io_scope.
Delimit Scope io_scope with io.
Notation "x <~ m ; k" := (bind m (fun x => k))
  (at level 20, m at level 100, k at level 200, only parsing) : io_scope.
Notation "m ;> k" := (bind m (fun _ => k))
  (at level 100, k at level 200, only parsing, right associativity) : io_scope.
Open Scope io_scope.

Definition raise {A} (e : exn) : IO A := fun w => (w, Raise e).
Definition pending {A} : IO A := fun w => (w, Pending).
Definition get : IO Server := fun w => (w, Ok (srv w)).
Definition put (s : Server) : IO unit :=
  fun w => ({| srv := s; trace := trace w |}, Ok tt).
Definition history : IO (list Action) := fun w => (w, Ok (trace w)).
Definition emit (a : Action) : IO unit :=
  fun w => ({| srv := srv w; trace := trace w ++ [a] |}, Ok tt).

(** [try: body  except Exception as e: handler e] *)
Definition try_except_Exception {A} (body : IO A) (handler : exn -> IO A) : IO A :=
  fun w =>
    match body w with
    | (w', Raise e) => if is_Exception e then handler e w' else (w', Raise e)
    | r => r
    end.

(** [try: body  except KeyboardInterrupt: handler] *)
Definition try_except_KeyboardInterrupt {A} (body : IO A) (handler : IO A) : IO A :=
  fun w =>
    match body w with
    | (w', Raise KeyboardInterrupt) => handler w'
    | r => r
    end.

(** What an awaited call into the environment does: it returns a value or
    it raises. *)
Inductive outcome (A : Type) :=
| Returns (a : A)
| Raises (e : exn).
Arguments Returns {A} a.
Arguments Raises {A} e.

(** An awaited call into the environment, its outcome being given. *)
Definition await {A} (o : outcome A) : IO A :=
  fun w =>
    match o with
    | Returns a => (w, Ok a)
    | Raises e => (w, Raise e)
    end.

(** ** Logging *)

Definition print_line (t : tag) (message : string) : IO unit :=
  emit (APrint t message).

(** [MailServerBase.log].  The [else] belongs to the test of
    [_suppress_errors], as it does in the source. *)
Definition log (message : string) (sev : severity) : IO unit :=
  s <~ get;
  if decide (_logging_enabled s = Some true) then
    (if decide (sev = INFO) then print_line TagInfo message else ret tt) ;>
    if decide (_suppress_errors s = Some false) then
      if decide (sev = WARNING) then print_line TagWarning message
      else if decide (sev = ERROR) then print_line TagError message
      else ret tt
    else print_line TagUnrecognized message
  else ret tt.

(** ** Dispatch *)

(** [await handler(event)] *)
Definition call_handler (handler : Handler) (event : Event) : IO unit :=
  past <~ history;
  emit (ACall (hname handler) event) ;>
  match hbody handler past event with
  | None => emit (ADone (hname handler))
  | Some x => emit (AFail (hname handler) x) ;> raise x
  end.

(** [for handler in hs: await handler(event)] *)
Fixpoint for_handlers (hs : list Handler) (event : Event) : IO unit :=
  match hs with
  | [] => ret tt
  | handler :: rest => call_handler handler event ;> for_handlers rest event
  end.

(** [MailServerBase.dispatch] *)
Definition dispatch (event : Event) : IO unit :=
  s <~ get;
  for_handlers (default [] (handlers s !! type_of event)) event.

(** ** Change detection *)

(** The store into [self._last_msg]: item assignment at index 0 when the
    list is non-empty, [append] otherwise. *)
Definition store_last_msg (m : Message) : IO unit :=
  s <~ get;
  emit (AWrite LastMsg) ;>
  match _last_msg s with
  | _ :: _ => put (set_last_msg (<[0%nat := m]> (_last_msg s)) s)
  | [] => put (set_last_msg (_last_msg s ++ [m]) s)
  end.

Definition store_last_domain (d : Domain) : IO unit :=
  s <~ get;
  emit (AWrite LastDomain) ;>
  match _last_domain s with
  | _ :: _ => put (set_last_domain (<[0%nat := d]> (_last_domain s)) s)
  | [] => put (set_last_domain (_last_domain s ++ [d]) s)
  end.

(** [not self._last_msg or self._last_msg[0].id != fetched.id] *)
Definition msg_changed (last : list Message) (fetched : Message) : bool :=
  match last with
  | [] => true
  | m :: _ => negb (String.eqb (msg_id m) (msg_id fetched))
  end.

Definition domain_changed (last : list Domain) (fetched : Domain) : bool :=
  match last with
  | [] => true
  | d :: _ => negb (String.eqb (dom_id d) (dom_id fetched))
  end.

(** [MailServerBase._check_for_new_messages]; [fetch] is what
    [get_messages()] answers this time. *)
Definition _check_for_new_messages (fetch : outcome (option MessageView)) : IO unit :=
  emit AGetMessages ;>
  msg_view <~ await fetch;
  match msg_view with
  | Some view =>
      match messages view with
      | m0 :: _ =>
          s <~ get;
          if msg_changed (_last_msg s) m0 then
            store_last_msg m0 ;>
            dispatch (NewMessageEv m0) ;>
            log ("RECIEVED new message from: " ++ msg_from_address m0) INFO
          else ret tt
      | [] => ret tt
      end
  | None => ret tt
  end.

(** [MailServerBase._check_for_new_domain] *)
Definition _check_for_new_domain (fetch : outcome (option DomainView)) : IO unit :=
  emit AGetDomains ;>
  domain_view <~ await fetch;
  match domain_view with
  | Some view =>
      match domains view with
      | d0 :: _ =>
          s <~ get;
          if domain_changed (_last_domain s) d0 then
            store_last_domain d0 ;>
            dispatch (DomainChangeEv d0) ;>
            log ("Domain Changed: " ++ domain_name d0) WARNING
          else ret tt
      | [] => ret tt
      end
  | None => ret tt
  end.

(** ** The poll loop *)

(** What the environment does during one iteration of [while True]. *)
Record TickEnv := {
  sleep_outcome : option exn;   (* None: the sleep ran to its end *)
  msg_fetch : outcome (option MessageView);
  domain_fetch : outcome (option DomainView);
}.

(** What the environment does during one call of [runner]. *)
Record RunEnv := {
  banner_read : outcome string;  (* the banner file, read and formatted *)
  clock : string;               (* strftime of the start time *)
  ticks : list TickEnv;
}.

(** [self._pooling_rate or 1] *)
Definition sleep_interval (s : Server) : Z :=
  match _pooling_rate s with
  | Some r => if Z.eqb r 0 then 1 else r
  | None => 1
  end.

(** [await asyncio.sleep(secs)] *)
Definition sleep (secs : Z) (outcome : option exn) : IO unit :=
  emit (ASleep secs) ;>
  match outcome with
  | None => ret tt
  | Some x => raise x
  end.

(** [await self.mail_client.close()], taken to return normally. *)
Definition close : IO unit := emit AClose.

Definition no_subscription : exn :=
  PyException "It seems like you have not subscribed to any events.".

(** The body of [while True] in [runner]. *)
Definition loop_body (env : TickEnv) : IO unit :=
  s <~ get;
  sleep (sleep_interval s) (sleep_outcome env) ;>
  s <~ get;
  (if decide (is_Some (handlers s !! NewMessage))
   then _check_for_new_messages (msg_fetch env) else ret tt) ;>
  s <~ get;
  (if decide (is_Some (handlers s !! DomainChange))
   then _check_for_new_domain (domain_fetch env) else ret tt) ;>
  s <~ get;
  if decide (handlers s = ∅) then close ;> raise no_subscription else ret tt.

(** [while True: body], over the iterations the script describes. *)
Fixpoint while_true (envs : list TickEnv) : IO unit :=
  match envs with
  | [] => pending
  | env :: rest => loop_body env ;> while_true rest
  end.

Definition nl : string := String (Ascii.ascii_of_nat 10) EmptyString.

(** [str] of an [Optional[bool]] and of an [Optional[int]] *)
Definition str_obool (b : option bool) : string :=
  match b with
  | Some true => "True"
  | Some false => "False"
  | None => "None"
  end.

Definition str_oint (z : option Z) : string :=
  match z with
  | Some z => pretty z
  | None => "None"
  end.

(** [MailServerBase._banner] *)
Definition _banner (read : outcome string) : IO unit :=
  s <~ get;
  match _banner_path s with
  | Some _ =>
      try_except_Exception
        (details <~ await read; emit (ABanner details))
        (fun e => log ("Exception while printing banner:" ++ nl ++ str_exn e) INFO)
  | None => ret tt
  end.

(** [MailServerBase.runner] *)
Definition runner (env : RunEnv) : IO unit :=
  s <~ get;
  (if decide (_banner_enabled s = Some true) then _banner (banner_read env) else ret tt) ;>
  try_except_Exception
    (s <~ get;
     log ("Server-> Session Started: " ++ clock env) INFO ;>
     log ("Server-> Pooling rate: " ++ str_oint (_pooling_rate s)) INFO ;>
     log ("Server-> Logging enabled: " ++ str_obool (_logging_enabled s)) INFO ;>
     log ("Server-> Banner enabled: " ++ str_obool (_banner_enabled s)) INFO ;>
     log ("Server-> Subscribed events: " ++ pretty (size (handlers s))) INFO ;>
     while_true (ticks env))
    (fun e =>
       close ;>
       log ("Exception while running server:" ++ nl ++ str_exn e) INFO).

(** [MailServerBase.run] *)
Definition run (env : RunEnv) : IO unit :=
  try_except_KeyboardInterrupt
    (runner env ;> emit ALoopClose)
    (log "Server is closing it's operations. Goodbye!" WARNING).

(** Running a computation from a server with an empty trace. *)
Definition start (s : Server) : World := {| srv := s; trace := [] |}.

(** ** Reading traces *)

Definition is_close (a : Action) : bool :=
  match a with AClose => true | _ => false end.

Definition is_print (a : Action) : bool :=
  match a with APrint _ _ => true | _ => false end.

Definition is_write (sl : slot) (a : Action) : bool :=
  match a with AWrite sl' => bool_decide (sl = sl') | _ => false end.

Fixpoint count (p : Action -> bool) (t : list Action) : nat :=
  match t with
  | [] => 0
  | a :: t' => (if p a then 1 else 0) + count p t'
  end%nat.

(** How often [close()] was called, how often a holder was written. *)
Definition closes (t : list Action) : nat := count is_close t.
Definition writes (sl : slot) (t : list Action) : nat := count (is_write sl) t.

(** The events handed to handlers, in order, with the handler's name. *)
Fixpoint calls (t : list Action) : list (string * Event) :=
  match t with
  | [] => []
  | ACall h e :: t' => (h, e) :: calls t'
  | _ :: t' => calls t'
  end.

(** The trace of a fan-out in which every handler of [hs] returns. *)
Definition completed (hs : list Handler) (e : Event) : list Action :=
  flat_map (fun h => [ACall (hname h) e; ADone (hname h)]) hs.

(** A history of registrations, oldest first, and the server it leads to. *)
Definition registered (regs : list (EventClass * Handler)) (s0 : Server) : Server :=
  foldl (fun s r => subscribe (fst r) (snd r) s) s0 regs.

(** The handlers registered for one class, in registration order, one entry
    per registration. *)
Definition handlers_for (c : EventClass) (regs : list (EventClass * Handler)) : list Handler :=
  map snd (filter (fun r => fst r = c) regs).

(** Actions of message detection and dispatch, and of domain detection and
    dispatch. *)
Definition msg_action (a : Action) : bool :=
  match a with
  | AGetMessages | AWrite LastMsg | ACall _ (NewMessageEv _) => true
  | _ => false
  end.

Definition dom_action (a : Action) : bool :=
  match a with
  | AGetDomains | AWrite LastDomain | ACall _ (DomainChangeEv _) => true
  | _ => false
  end.

(** The invariant of the two last-seen holders. *)
Definition holders_ok (s : Server) : Prop :=
  (length (_last_msg s) <= 1)%nat /\ (length (_last_domain s) <= 1)%nat.

(** The operations of the server, and the world each one leads to. *)
Inductive Op :=
| OpSubscribe (event_type : EventClass) (handler_func : Handler)
| OpOnNewMessage (func : Handler)
| OpOnNewDomain (func : Handler)
| OpLog (message : string) (sev : severity)
| OpDispatch (event : Event)
| OpCheckMessages (fetch : outcome (option MessageView))
| OpCheckDomain (fetch : outcome (option DomainView))
| OpLoopBody (env : TickEnv)
| OpRunner (env : RunEnv)
| OpRun (env : RunEnv).

Definition apply_op (op : Op) (w : World) : World :=
  match op with
  | OpSubscribe c h => {| srv := subscribe c h (srv w); trace := trace w |}
  | OpOnNewMessage h => {| srv := on_new_message h (srv w); trace := trace w |}
  | OpOnNewDomain h => {| srv := on_new_domain h (srv w); trace := trace w |}
  | OpLog m sev => fst (log m sev w)
  | OpDispatch e => fst (dispatch e w)
  | OpCheckMessages f => fst (_check_for_new_messages f w)
  | OpCheckDomain f => fst (_check_for_new_domain f w)
  | OpLoopBody env => fst (loop_body env w)
  | OpRunner env => fst (runner env w)
  | OpRun env => fst (run env w)
  end.

(** The same environment with another script of iterations. *)
Definition with_ticks (envs : list TickEnv) (env : RunEnv) : RunEnv :=
  {| banner_read := banner_read env; clock := clock env; ticks := envs |}.

(** A computation respects a class of actions and a relation on servers
    when it only appends actions of the class and moves the server along the
    relation. *)
Definition moves (okA : Action -> Prop) (okS : Server -> Server -> Prop)
    (w w' : World) : Prop :=
  (exists d, trace w' = trace w ++ d /\ Forall okA d) /\ okS (srv w) (srv w').

Definition respects (okA : Action -> Prop) (okS : Server -> Server -> Prop)
    {A} (m : IO A) : Prop :=
  forall w, moves okA okS w (fst (m w)).

(** The lines one call of [log] prints, as a function of the server. *)
Definition log_lines (s : Server) (message : string) (sev : severity) : list Action :=
  if decide (_logging_enabled s = Some true) then
    (if decide (sev = INFO) then [APrint TagInfo message] else []) ++
    (if decide (_suppress_errors s = Some false) then
       match sev with
       | INFO => []
       | WARNING => [APrint TagWarning message]
       | ERROR => [APrint TagError message]
       end
     else [APrint TagUnrecognized message])
  else [].

(** The bookkeeping actions every class of actions used below contains. *)
Definition neutral (a : Action) : bool :=
  match a with
  | ABanner _ | APrint _ _ | ASleep _ | ADone _ | AFail _ _ | ALoopClose => true
  | _ => false
  end.

(** What the generic lemmas ask of a class of actions and a relation on
    servers: the relation is a preorder and the class contains the
    bookkeeping actions. *)
Record discipline (okA : Action -> Prop) (okS : Server -> Server -> Prop) : Prop := {
  d_refl : forall s, okS s s;
  d_trans : forall a b c, okS a b -> okS b c -> okS a c;
  d_neutral : forall a, neutral a = true -> okA a;
}.

(** The three phases of one iteration after its sleep.  They are not
    functions of the source: [loop_body_phases] shows that the body of the
    loop is their sequence. *)
Definition msg_phase (env : TickEnv) : IO unit :=
  s <~ get;
  if decide (is_Some (handlers s !! NewMessage))
  then _check_for_new_messages (msg_fetch env) else ret tt.

Definition dom_phase (env : TickEnv) : IO unit :=
  s <~ get;
  if decide (is_Some (handlers s !! DomainChange))
  then _check_for_new_domain (domain_fetch env) else ret tt.

Definition subscription_check : IO unit :=
  s <~ get;
  if decide (handlers s = ∅) then close ;> raise no_subscription else ret tt.

Definition sleep_phase (env : TickEnv) : IO unit :=
  s <~ get;
  sleep (sleep_interval s) (sleep_outcome env).

(** A computation is total when it never waits for more of the script. *)
Definition total {A} (m : IO A) : Prop :=
  forall w, snd (m w) <> Pending.

(** The configuration and the registry are the same in both servers. *)
Definition same_setup (s s' : Server) : Prop :=
  _banner_enabled s' = _banner_enabled s /\
  _banner_path s' = _banner_path s /\
  _pooling_rate s' = _pooling_rate s /\
  _suppress_errors s' = _suppress_errors s /\
  _logging_enabled s' = _logging_enabled s /\
  handlers s' = handlers s.

(** ** Notions used by the further properties *)

(** The tag under which [log] prints a severity when errors are not
    suppressed. *)
Definition tag_of (sev : severity) : tag :=
  match sev with
  | INFO => TagInfo
  | WARNING => TagWarning
  | ERROR => TagError
  end.


(** The operations that register a handler. *)
Definition is_registration (op : Op) : bool :=
  match op with
  | OpSubscribe _ _ | OpOnNewMessage _ | OpOnNewDomain _ => true
  | _ => false
  end.

(** The entity an iteration's fetch brings, if it brings one: the element at
    index 0 of a present, non-empty view. *)
Definition fetched_msg (env : TickEnv) : option Message :=
  match msg_fetch env with
  | Returns (Some {| messages := m :: _ |}) => Some m
  | _ => None
  end.

Definition fetched_domain (env : TickEnv) : option Domain :=
  match domain_fetch env with
  | Returns (Some {| domains := d :: _ |}) => Some d
  | _ => None
  end.

(** The identifier at index 0 of a holder. *)
Definition held_msg_id (s : Server) : option string :=
  match _last_msg s with
  | m :: _ => Some (msg_id m)
  | [] => None
  end.

Definition held_domain_id (s : Server) : option string :=
  match _last_domain s with
  | d :: _ => Some (dom_id d)
  | [] => None
  end.

(** The identifier fetched last over a script, starting from [last]. *)
Fixpoint newest_msg_id (last : option string) (envs : list TickEnv) : option string :=
  match envs with
  | [] => last
  | env :: rest =>
      match fetched_msg env with
      | Some m => newest_msg_id (Some (msg_id m)) rest
      | None => newest_msg_id last rest
      end
  end.

Fixpoint newest_domain_id (last : option string) (envs : list TickEnv) : option string :=
  match envs with
  | [] => last
  | env :: rest =>
      match fetched_domain env with
      | Some d => newest_domain_id (Some (dom_id d)) rest
      | None => newest_domain_id last rest
      end
  end.

(** The fetched entities whose identifier differs from the one fetched
    before them, over a script, starting from [last]. *)
Fixpoint changed_msgs (last : option string) (envs : list TickEnv) : list Message :=
  match envs with
  | [] => []
  | env :: rest =>
      match fetched_msg env with
      | Some m =>
          if decide (last = Some (msg_id m)) then changed_msgs last rest
          else m :: changed_msgs (Some (msg_id m)) rest
      | None => changed_msgs last rest
      end
  end.

Fixpoint changed_domains (last : option string) (envs : list TickEnv) : list Domain :=
  match envs with
  | [] => []
  | env :: rest =>
      match fetched_domain env with
      | Some d =>
          if decide (last = Some (dom_id d)) then changed_domains last rest
          else d :: changed_domains (Some (dom_id d)) rest
      | None => changed_domains last rest
      end
  end.

(** The calls of a trace that deliver a message, and those that deliver a
    domain. *)
Fixpoint msg_calls (t : list Action) : list (string * Message) :=
  match t with
  | [] => []
  | ACall h (NewMessageEv m) :: t' => (h, m) :: msg_calls t'
  | _ :: t' => msg_calls t'
  end.

Fixpoint dom_calls (t : list Action) : list (string * Domain) :=
  match t with
  | [] => []
  | ACall h (DomainChangeEv d) :: t' => (h, d) :: dom_calls t'
  | _ :: t' => dom_calls t'
  end.

(** One delivery of [x] to each handler of [hs], in order. *)
Definition deliveries {X} (hs : list Handler) (x : X) : list (string * X) :=
  map (fun h => (hname h, x)) hs.

Definition is_fetch (a : Action) : bool :=
  match a with AGetMessages | AGetDomains => true | _ => false end.

Definition is_call (a : Action) : bool :=
  match a with ACall _ _ => true | _ => false end.

(** ** Generic facts about the monad *)

Section Respects.
Context (okA : Action -> Prop) (okS : Server -> Server -> Prop).
Hypothesis D : discipline okA okS.

Lemma okS_refl s : okS s s.
Proof. apply D. Qed.

Lemma okS_trans a b c : okS a b -> okS b c -> okS a c.
Proof. apply D. Qed.

Lemma okA_neutral a : neutral a = true -> okA a.
Proof. apply D. Qed.

Lemma moves_refl w : moves okA okS w w.
Proof.
  split; [exists []; split; [by rewrite app_nil_r | constructor] | apply okS_refl].
Qed.

Lemma moves_trans w1 w2 w3 :
  moves okA okS w1 w2 -> moves okA okS w2 w3 -> moves okA okS w1 w3.
Proof.
  intros [(d1 & E1 & F1) S1] [(d2 & E2 & F2) S2]. split.
  - exists (d1 ++ d2). split.
    + by rewrite E2, E1, app_assoc.
    + by apply Forall_app.
  - by eapply okS_trans.
Qed.

Lemma respects_ret {A} (a : A) : respects okA okS (ret a).
Proof. intros w. apply moves_refl. Qed.

Lemma respects_raise {A} (e : exn) : respects okA okS (@raise A e).
Proof. intros w. apply moves_refl. Qed.

Lemma respects_pending {A} : respects okA okS (@pending A).
Proof. intros w. apply moves_refl. Qed.

Lemma respects_get : respects okA okS get.
Proof. intros w. apply moves_refl. Qed.

Lemma respects_history : respects okA okS history.
Proof. intros w. apply moves_refl. Qed.

Lemma respects_await {A} (o : outcome A) : respects okA okS (await o).
Proof. intros w. unfold await. destruct o; apply moves_refl. Qed.

Lemma respects_emit a : okA a -> respects okA okS (emit a).
Proof.
  intros Ha w. split; simpl; [| apply okS_refl].
  exists [a]. split; [done | by constructor].
Qed.

Lemma respects_bind {A B} (m : IO A) (k : A -> IO B) :
  respects okA okS m -> (forall a, respects okA okS (k a)) ->
  respects okA okS (bind m k).
Proof.
  intros Hm Hk w. unfold bind. specialize (Hm w).
  destruct (m w) as [w' [a | e |]]; simpl in *; [| done | done].
  eapply moves_trans; [exact Hm | apply Hk].
Qed.

Lemma respects_try_Exception {A} (body : IO A) (handler : exn -> IO A) :
  respects okA okS body -> (forall e, respects okA okS (handler e)) ->
  respects okA okS (try_except_Exception body handler).
Proof.
  intros Hb Hh w. unfold try_except_Exception. specialize (Hb w).
  destruct (body w) as [w' [a | e |]]; simpl in *; [done | | done].
  destruct (is_Exception e); [| done].
  eapply moves_trans; [exact Hb | apply Hh].
Qed.

Lemma respects_try_KeyboardInterrupt {A} (body handler : IO A) :
  respects okA okS body -> respects okA okS handler ->
  respects okA okS (try_except_KeyboardInterrupt body handler).
Proof.
  intros Hb Hh w. unfold try_except_KeyboardInterrupt. specialize (Hb w).
  destruct (body w) as [w' [a | [] |]]; simpl in *; try done.
  eapply moves_trans; [exact Hb | apply Hh].
Qed.

(** *** The operations of the server *)

Ltac step :=
  first
    [ simple apply respects_ret | simple apply respects_raise
    | simple apply respects_get | simple apply respects_history
    | simple apply respects_await | simple apply respects_pending
    | simple apply respects_bind; [| intros ?]
    | simple apply respects_emit; first [ done | by apply okA_neutral ] ].

Lemma respects_log message sev : respects okA okS (log message sev).
Proof.
  unfold log, print_line. step; [step |].
  repeat (case_decide; repeat step).
Qed.

Lemma respects_call_handler h e :
  okA (ACall (hname h) e) -> respects okA okS (call_handler h e).
Proof.
  intros Hc. unfold call_handler. repeat step.
  destruct (hbody h _ e); repeat step.
Qed.

Lemma respects_for_handlers hs e :
  (forall n, okA (ACall n e)) -> respects okA okS (for_handlers hs e).
Proof.
  intros Hc. induction hs as [| h hs IH]; simpl; [step |].
  step; [by apply respects_call_handler | exact IH].
Qed.

Lemma respects_dispatch e :
  (forall n, okA (ACall n e)) -> respects okA okS (dispatch e).
Proof.
  intros Hc. unfold dispatch. step; [step |]. by apply respects_for_handlers.
Qed.

Lemma respects_sleep secs o : respects okA okS (sleep secs o).
Proof. unfold sleep. step; [step |]. destruct o; step. Qed.

Lemma respects_close : okA AClose -> respects okA okS close.
Proof. intros H. unfold close. step. Qed.

Lemma respects_store_last_msg m :
  okA (AWrite LastMsg) ->
  (forall s l, length l = Nat.max 1 (length (_last_msg s)) -> okS s (set_last_msg l s)) ->
  respects okA okS (store_last_msg m).
Proof.
  intros Hw Hs w. unfold store_last_msg, bind, get, emit, put. simpl.
  split; simpl.
  - destruct (_last_msg (srv w)); simpl; exists [AWrite LastMsg]; split; auto.
  - destruct (_last_msg (srv w)) as [| x l] eqn:E; simpl; apply Hs; rewrite E; simpl; lia.
Qed.

Lemma respects_store_last_domain d :
  okA (AWrite LastDomain) ->
  (forall s l, length l = Nat.max 1 (length (_last_domain s)) -> okS s (set_last_domain l s)) ->
  respects okA okS (store_last_domain d).
Proof.
  intros Hw Hs w. unfold store_last_domain, bind, get, emit, put. simpl.
  split; simpl.
  - destruct (_last_domain (srv w)); simpl; exists [AWrite LastDomain]; split; auto.
  - destruct (_last_domain (srv w)) as [| x l] eqn:E; simpl; apply Hs; rewrite E; simpl; lia.
Qed.

Lemma respects_check_for_new_messages fetch :
  okA AGetMessages -> okA (AWrite LastMsg) ->
  (forall n m, okA (ACall n (NewMessageEv m))) ->
  (forall s l, length l = Nat.max 1 (length (_last_msg s)) -> okS s (set_last_msg l s)) ->
  respects okA okS (_check_for_new_messages fetch).
Proof.
  intros Hg Hw Hc Hs. unfold _check_for_new_messages. repeat step.
  destruct a0 as [[[| m0 ms]] |]; simpl; repeat step.
  destruct (msg_changed _ _); repeat step.
  - by apply respects_store_last_msg.
  - by apply respects_dispatch.
  - apply respects_log.
Qed.

Lemma respects_check_for_new_domain fetch :
  okA AGetDomains -> okA (AWrite LastDomain) ->
  (forall n d, okA (ACall n (DomainChangeEv d))) ->
  (forall s l, length l = Nat.max 1 (length (_last_domain s)) -> okS s (set_last_domain l s)) ->
  respects okA okS (_check_for_new_domain fetch).
Proof.
  intros Hg Hw Hc Hs. unfold _check_for_new_domain. repeat step.
  destruct a0 as [[[| d0 ds]] |]; simpl; repeat step.
  destruct (domain_changed _ _); repeat step.
  - by apply respects_store_last_domain.
  - by apply respects_dispatch.
  - apply respects_log.
Qed.

Lemma respects_banner read : respects okA okS (_banner read).
Proof.
  unfold _banner. step; [step |]. destruct (_banner_path a); [| step].
  apply respects_try_Exception; [repeat step | intros e; apply respects_log].
Qed.

Lemma respects_sleep_phase env : respects okA okS (sleep_phase env).
Proof. unfold sleep_phase. step; [step | apply respects_sleep]. Qed.

Lemma respects_msg_phase env :
  okA AGetMessages -> okA (AWrite LastMsg) ->
  (forall n m, okA (ACall n (NewMessageEv m))) ->
  (forall s l, length l = Nat.max 1 (length (_last_msg s)) -> okS s (set_last_msg l s)) ->
  respects okA okS (msg_phase env).
Proof.
  intros. unfold msg_phase. step; [step |].
  case_decide; [by apply respects_check_for_new_messages | step].
Qed.

Lemma respects_dom_phase env :
  okA AGetDomains -> okA (AWrite LastDomain) ->
  (forall n d, okA (ACall n (DomainChangeEv d))) ->
  (forall s l, length l = Nat.max 1 (length (_last_domain s)) -> okS s (set_last_domain l s)) ->
  respects okA okS (dom_phase env).
Proof.
  intros. unfold dom_phase. step; [step |].
  case_decide; [by apply respects_check_for_new_domain | step].
Qed.

Lemma respects_subscription_check :
  okA AClose -> respects okA okS subscription_check.
Proof.
  intros. unfold subscription_check. step; [step |].
  case_decide; [| step]. step; [by apply respects_close | step].
Qed.

Lemma respects_loop_body env :
  (forall a, okA a) ->
  (forall s l, length l = Nat.max 1 (length (_last_msg s)) -> okS s (set_last_msg l s)) ->
  (forall s l, length l = Nat.max 1 (length (_last_domain s)) -> okS s (set_last_domain l s)) ->
  respects okA okS (loop_body env).
Proof.
  intros Ha Hm Hd. unfold loop_body.
  step; [step |]. step; [apply respects_sleep |].
  step; [step |]. step.
  { case_decide; [by apply respects_check_for_new_messages | step]. }
  step; [step |]. step.
  { case_decide; [by apply respects_check_for_new_domain | step]. }
  step; [step |]. case_decide; [| step].
  step; [by apply respects_close | step].
Qed.

Lemma respects_while_true envs :
  (forall a, okA a) ->
  (forall s l, length l = Nat.max 1 (length (_last_msg s)) -> okS s (set_last_msg l s)) ->
  (forall s l, length l = Nat.max 1 (length (_last_domain s)) -> okS s (set_last_domain l s)) ->
  respects okA okS (while_true envs).
Proof.
  intros Ha Hm Hd. induction envs as [| env rest IH]; simpl; [step |].
  step; [by apply respects_loop_body | exact IH].
Qed.

Lemma respects_runner env :
  (forall a, okA a) ->
  (forall s l, length l = Nat.max 1 (length (_last_msg s)) -> okS s (set_last_msg l s)) ->
  (forall s l, length l = Nat.max 1 (length (_last_domain s)) -> okS s (set_last_domain l s)) ->
  respects okA okS (runner env).
Proof.
  intros Ha Hm Hd. unfold runner.
  step; [step |]. step.
  { case_decide; [apply respects_banner | step]. }
  apply respects_try_Exception.
  - step; [step |]. do 5 (step; [apply respects_log |]).
    by apply respects_while_true.
  - intros e. step; [by apply respects_close | apply respects_log].
Qed.

Lemma respects_run env :
  (forall a, okA a) ->
  (forall s l, length l = Nat.max 1 (length (_last_msg s)) -> okS s (set_last_msg l s)) ->
  (forall s l, length l = Nat.max 1 (length (_last_domain s)) -> okS s (set_last_domain l s)) ->
  respects okA okS (run env).
Proof.
  intros Ha Hm Hd. unfold run. apply respects_try_KeyboardInterrupt.
  - step; [by apply respects_runner | step].
  - apply respects_log.
Qed.
End Respects.

(** *** Totality *)

Lemma total_ret {A} (a : A) : total (ret a).
Proof. by intros w. Qed.

Lemma total_raise {A} (e : exn) : total (@raise A e).
Proof. by intros w. Qed.

Lemma total_get : total get.
Proof. by intros w. Qed.

Lemma total_history : total history.
Proof. by intros w. Qed.

Lemma total_put s : total (put s).
Proof. by intros w. Qed.

Lemma total_emit a : total (emit a).
Proof. by intros w. Qed.

Lemma total_await {A} (o : outcome A) : total (await o).
Proof. intros w. unfold await. by destruct o. Qed.

Lemma total_bind {A B} (m : IO A) (k : A -> IO B) :
  total m -> (forall a, total (k a)) -> total (bind m k).
Proof.
  intros Hm Hk w. unfold bind. specialize (Hm w).
  destruct (m w) as [w' [a | e |]]; simpl in *; [apply Hk | done | done].
Qed.

Lemma total_try_Exception {A} (body : IO A) (handler : exn -> IO A) :
  total body -> (forall e, total (handler e)) ->
  total (try_except_Exception body handler).
Proof.
  intros Hb Hh w. unfold try_except_Exception. specialize (Hb w).
  destruct (body w) as [w' [a | e |]]; simpl in *; [done | | done].
  destruct (is_Exception e); [apply Hh | done].
Qed.

Ltac tstep :=
  first
    [ simple apply @total_ret | simple apply @total_raise | simple apply total_get
    | simple apply total_history | simple apply total_put | simple apply total_emit
    | simple apply @total_await
    | simple apply @total_bind; [| intros ?] ].

Lemma total_log message sev : total (log message sev).
Proof.
  unfold log, print_line. tstep; [tstep |].
  repeat (case_decide; repeat tstep).
Qed.

Lemma total_call_handler h e : total (call_handler h e).
Proof. unfold call_handler. repeat tstep. destruct (hbody h _ e); repeat tstep. Qed.

Lemma total_for_handlers hs e : total (for_handlers hs e).
Proof.
  induction hs as [| h hs IH]; simpl; [tstep |].
  tstep; [apply total_call_handler | exact IH].
Qed.

Lemma total_dispatch e : total (dispatch e).
Proof. unfold dispatch. tstep; [tstep | apply total_for_handlers]. Qed.

Lemma total_store_last_msg m : total (store_last_msg m).
Proof. unfold store_last_msg. repeat tstep. destruct (_last_msg a); tstep. Qed.

Lemma total_store_last_domain d : total (store_last_domain d).
Proof. unfold store_last_domain. repeat tstep. destruct (_last_domain a); tstep. Qed.

Lemma total_check_for_new_messages fetch : total (_check_for_new_messages fetch).
Proof.
  unfold _check_for_new_messages. repeat tstep.
  destruct a0 as [[[| m0 ms]] |]; simpl; repeat tstep.
  destruct (msg_changed _ _); repeat tstep.
  - apply total_store_last_msg.
  - apply total_dispatch.
  - apply total_log.
Qed.

Lemma total_check_for_new_domain fetch : total (_check_for_new_domain fetch).
Proof.
  unfold _check_for_new_domain. repeat tstep.
  destruct a0 as [[[| d0 ds]] |]; simpl; repeat tstep.
  destruct (domain_changed _ _); repeat tstep.
  - apply total_store_last_domain.
  - apply total_dispatch.
  - apply total_log.
Qed.

Lemma total_sleep secs o : total (sleep secs o).
Proof. unfold sleep. tstep; [tstep |]. destruct o; tstep. Qed.

Lemma total_loop_body env : total (loop_body env).
Proof.
  unfold loop_body, close.
  tstep; [tstep |]. tstep; [apply total_sleep |].
  tstep; [tstep |]. tstep.
  { case_decide; [apply total_check_for_new_messages | tstep]. }
  tstep; [tstep |]. tstep.
  { case_decide; [apply total_check_for_new_domain | tstep]. }
  tstep; [tstep |]. case_decide; repeat tstep.
Qed.

Lemma total_sleep_phase env : total (sleep_phase env).
Proof. unfold sleep_phase. tstep; [tstep | apply total_sleep]. Qed.

Lemma total_msg_phase env : total (msg_phase env).
Proof.
  unfold msg_phase. tstep; [tstep |].
  case_decide; [apply total_check_for_new_messages | tstep].
Qed.

Lemma total_dom_phase env : total (dom_phase env).
Proof.
  unfold dom_phase. tstep; [tstep |].
  case_decide; [apply total_check_for_new_domain | tstep].
Qed.

Lemma total_banner read : total (_banner read).
Proof.
  unfold _banner. tstep; [tstep |]. destruct (_banner_path a); [| tstep].
  apply total_try_Exception; [repeat tstep | intros e; apply total_log].
Qed.

(** ** Equations for the small steps *)

(** Traces are compared after reassociating appends to the right. *)
Ltac norm_app := repeat (progress (rewrite <- ?app_assoc; simpl)).

Lemma log_eq message sev w :
  log message sev w =
  ({| srv := srv w; trace := trace w ++ log_lines (srv w) message sev |}, Ok tt).
Proof.
  destruct w as [s t]. unfold log, log_lines, bind, get, print_line, emit, ret. simpl.
  repeat case_decide; simpl; rewrite <- ?app_assoc, ?app_nil_r; simpl; try done;
    destruct sev; simpl; rewrite ?app_nil_r; done.
Qed.

Lemma log_lines_print s message sev : Forall (fun a => is_print a = true) (log_lines s message sev).
Proof.
  unfold log_lines. repeat case_decide; destruct sev; simpl; repeat constructor.
Qed.

Lemma log_lines_disabled s message sev :
  _logging_enabled s <> Some true -> log_lines s message sev = [].
Proof. intros H. unfold log_lines. by case_decide. Qed.

Lemma log_lines_info s message :
  _logging_enabled s = Some true -> In (APrint TagInfo message) (log_lines s message INFO).
Proof. intros H. unfold log_lines. rewrite decide_True by done. simpl. by left. Qed.

Lemma sleep_eq secs o w :
  sleep secs o w =
  ({| srv := srv w; trace := trace w ++ [ASleep secs] |},
   match o with None => Ok tt | Some x => Raise x end).
Proof. unfold sleep, bind, emit, ret, raise. simpl. by destruct o. Qed.

(** Fan-out when every handler returns. *)
Lemma for_handlers_all_return hs e w :
  (forall h, In h hs -> forall past ev, hbody h past ev = None) ->
  for_handlers hs e w =
  ({| srv := srv w; trace := trace w ++ completed hs e |}, Ok tt).
Proof.
  revert w. induction hs as [| h hs IH]; intros [s t] Hall; simpl.
  - unfold ret, completed. simpl. by rewrite app_nil_r.
  - unfold bind, call_handler, bind, history, emit. simpl.
    rewrite (Hall h) by (by left). simpl.
    rewrite IH by (intros h' Hin; apply Hall; by right). simpl.
    unfold completed. simpl. by rewrite <- !app_assoc.
Qed.


(** The body of the loop is the sequence of its four phases. *)
Lemma loop_body_phases env w :
  loop_body env w =
  (sleep_phase env ;> msg_phase env ;> dom_phase env ;> subscription_check) w.
Proof.
  unfold loop_body, sleep_phase, msg_phase, dom_phase, subscription_check.
  unfold bind, get. simpl.
  destruct (sleep _ _ w) as [w1 [[] | x |]]; [| reflexivity | reflexivity].
  destruct (decide (is_Some (handlers (srv w1) !! NewMessage))); [| reflexivity].
  destruct (_check_for_new_messages _ w1) as [w2 [[] | x |]]; reflexivity.
Qed.

Lemma sleep_phase_eq env w :
  sleep_phase env w =
  ({| srv := srv w; trace := trace w ++ [ASleep (sleep_interval (srv w))] |},
   match sleep_outcome env with None => Ok tt | Some x => Raise x end).
Proof. unfold sleep_phase, bind, get. simpl. apply sleep_eq. Qed.

(** *** Disciplines used below *)

Lemma discipline_any : discipline (fun _ => True) (fun _ _ => True).
Proof. by split. Qed.

Lemma discipline_keep : discipline (fun _ => True) (fun s s' => s' = s).
Proof. split; [done | congruence | done]. Qed.

Lemma discipline_setup okA :
  (forall a, neutral a = true -> okA a) -> discipline okA same_setup.
Proof.
  intros Hn. split; [| | done].
  - by intros s.
  - unfold same_setup. intros a b c (?&?&?&?&?&?) (?&?&?&?&?&?).
    repeat split; congruence.
Qed.

Lemma discipline_holders : discipline (fun _ => True) (fun s s' => holders_ok s -> holders_ok s').
Proof. split; [done | by eauto | done]. Qed.

(** What follows the sleep only appends to the trace. *)
Lemma polls_extend env w :
  exists d,
    trace (fst ((msg_phase env ;> dom_phase env ;> subscription_check) w)) = trace w ++ d.
Proof.
  assert (H : respects (fun _ => True) (fun _ _ => True)
                (msg_phase env ;> dom_phase env ;> subscription_check)).
  { pose proof discipline_any as D.
    apply (respects_bind _ _ D); [by apply (respects_msg_phase _ _ D) | intros _].
    apply (respects_bind _ _ D); [by apply (respects_dom_phase _ _ D) | intros _].
    by apply (respects_subscription_check _ _ D). }
  destruct (H w) as [(d & Hd & _) _]. by exists d.
Qed.

(** ** C10: a polling rate of zero *)

(** C10.  When the polling rate is 0, and likewise when it is left
    unspecified, [self._pooling_rate or 1] is 1, and the first thing an
    iteration of the loop does is to sleep for exactly that one second. *)
Theorem falsy_pooling_rate_sleeps_one_second (s : Server) (t : list Action) (env : TickEnv) :
  _pooling_rate s = Some 0 \/ _pooling_rate s = None ->
  sleep_interval s = 1 /\
  exists rest,
    trace (fst (loop_body env {| srv := s; trace := t |})) = t ++ ASleep 1 :: rest.
Proof.
  intros Hrate.
  assert (Hone : sleep_interval s = 1).
  { unfold sleep_interval. by destruct Hrate as [-> | ->]. }
  split; [exact Hone |].
  rewrite loop_body_phases. unfold bind at 1. rewrite sleep_phase_eq. simpl.
  rewrite Hone.
  destruct (sleep_outcome env) as [x |]; simpl; [by exists [] |].
  match goal with
  | |- context [fst (?m ?w1)] => destruct (polls_extend env w1) as [d Hd]
  end.
  rewrite Hd. simpl. exists d. by rewrite <- app_assoc.
Qed.

Lemma falsy_pooling_rate_sleeps_one_second_witness :
  sleep_interval (init_default (Some 0)) = 1 /\
  exists rest,
    trace (fst (loop_body
                  {| sleep_outcome := None; msg_fetch := Returns None;
                     domain_fetch := Returns None |}
                  {| srv := init_default (Some 0); trace := [] |}))
    = [] ++ ASleep 1 :: rest.
Proof.
  apply (falsy_pooling_rate_sleeps_one_second (init_default (Some 0)) []).
  left. reflexivity.
Defined.

(** ** C6: identity is the identifier *)

(** C6.  When the newest fetched entity carries the identifier of the entity
    in the last-seen holder, the check only performs its fetch: the server,
    holders included, is left as it was, no handler is called and nothing is
    written, whatever the other fields of the two entities are.  This holds
    for messages and for domains. *)
Theorem same_identifier_is_no_change (s : Server) (t : list Action) :
  (forall (m fetched : Message) (l others : list Message),
      _last_msg s = m :: l ->
      msg_id fetched = msg_id m ->
      _check_for_new_messages (Returns (Some {| messages := fetched :: others |}))
        {| srv := s; trace := t |}
      = ({| srv := s; trace := t ++ [AGetMessages] |}, Ok tt)) /\
  (forall (d fetched : Domain) (l others : list Domain),
      _last_domain s = d :: l ->
      dom_id fetched = dom_id d ->
      _check_for_new_domain (Returns (Some {| domains := fetched :: others |}))
        {| srv := s; trace := t |}
      = ({| srv := s; trace := t ++ [AGetDomains] |}, Ok tt)).
Proof.
  split.
  - intros m fetched l others Hlast Hid.
    unfold _check_for_new_messages, bind, emit, await, get. simpl.
    rewrite Hlast. unfold msg_changed. rewrite Hid, String.eqb_refl. reflexivity.
  - intros d fetched l others Hlast Hid.
    unfold _check_for_new_domain, bind, emit, await, get. simpl.
    rewrite Hlast. unfold domain_changed. rewrite Hid, String.eqb_refl. reflexivity.
Qed.

Lemma same_identifier_is_no_change_witness :
  let old := {| msg_id := "m1"; msg_from_address := "ann@example.org"; msg_payload := "first" |} in
  let new := {| msg_id := "m1"; msg_from_address := "bob@example.org"; msg_payload := "second" |} in
  let dold := {| dom_id := "d1"; domain_name := "example.org" |} in
  let dnew := {| dom_id := "d1"; domain_name := "example.net" |} in
  let s := set_last_domain [dold] (set_last_msg [old] (init_default None)) in
  _check_for_new_messages (Returns (Some {| messages := [new] |})) {| srv := s; trace := [] |}
    = ({| srv := s; trace := [] ++ [AGetMessages] |}, Ok tt) /\
  _check_for_new_domain (Returns (Some {| domains := [dnew] |})) {| srv := s; trace := [] |}
    = ({| srv := s; trace := [] ++ [AGetDomains] |}, Ok tt).
Proof.
  intros old new dold dnew s. split.
  - apply (proj1 (same_identifier_is_no_change s []) old new [] []); reflexivity.
  - apply (proj2 (same_identifier_is_no_change s []) dold dnew [] []); reflexivity.
Defined.

(** ** Frames of the two checks *)

Lemma discipline_domain_frame :
  discipline (fun _ => True)
    (fun a b => _last_domain b = _last_domain a /\ same_setup a b).
Proof.
  split; [by intros ? | | done].
  intros a b c [E1 S1] [E2 S2]. split; [congruence |].
  by apply (d_trans _ _ (discipline_setup (fun _ => True) ltac:(done)) a b c).
Qed.

Lemma discipline_msg_frame :
  discipline (fun _ => True)
    (fun a b => _last_msg b = _last_msg a /\ same_setup a b).
Proof.
  split; [by intros ? | | done].
  intros a b c [E1 S1] [E2 S2]. split; [congruence |].
  by apply (d_trans _ _ (discipline_setup (fun _ => True) ltac:(done)) a b c).
Qed.

Lemma check_for_new_messages_frame fetch w :
  let s' := srv (fst (_check_for_new_messages fetch w)) in
  _last_domain s' = _last_domain (srv w) /\ same_setup (srv w) s'.
Proof.
  by apply (respects_check_for_new_messages _ _ discipline_domain_frame fetch).
Qed.

Lemma check_for_new_domain_frame fetch w :
  let s' := srv (fst (_check_for_new_domain fetch w)) in
  _last_msg s' = _last_msg (srv w) /\ same_setup (srv w) s'.
Proof.
  by apply (respects_check_for_new_domain _ _ discipline_msg_frame fetch).
Qed.

(** ** C7: an absent or empty view *)

(** C7.  When the fetch answers with no view, or with a view that holds no
    entity, the check only performs its fetch: the server is left as it was
    (a holder is never emptied), no handler is called and nothing is printed.
    Moreover, whatever the fetch answers, the message check leaves the domain
    holder, the registry and the configuration alone, and the domain check
    leaves the message holder, the registry and the configuration alone. *)
Theorem empty_fetch_is_no_change (s : Server) (t : list Action) :
  _check_for_new_messages (Returns None) {| srv := s; trace := t |}
    = ({| srv := s; trace := t ++ [AGetMessages] |}, Ok tt) /\
  _check_for_new_messages (Returns (Some {| messages := [] |})) {| srv := s; trace := t |}
    = ({| srv := s; trace := t ++ [AGetMessages] |}, Ok tt) /\
  _check_for_new_domain (Returns None) {| srv := s; trace := t |}
    = ({| srv := s; trace := t ++ [AGetDomains] |}, Ok tt) /\
  _check_for_new_domain (Returns (Some {| domains := [] |})) {| srv := s; trace := t |}
    = ({| srv := s; trace := t ++ [AGetDomains] |}, Ok tt) /\
  (forall fetch,
      let s' := srv (fst (_check_for_new_messages fetch {| srv := s; trace := t |})) in
      _last_domain s' = _last_domain s /\ same_setup s s') /\
  (forall fetch,
      let s' := srv (fst (_check_for_new_domain fetch {| srv := s; trace := t |})) in
      _last_msg s' = _last_msg s /\ same_setup s s').
Proof.
  split; [reflexivity |]. split; [reflexivity |].
  split; [reflexivity |]. split; [reflexivity |].
  split; intros fetch.
  - apply check_for_new_messages_frame.
  - apply check_for_new_domain_frame.
Qed.

(** ** C5: fan-out in registration order *)

Lemma register_lookup_eq c h (reg : gmap EventClass (list Handler)) :
  register c h reg !! c = Some (default [] (reg !! c) ++ [h]).
Proof.
  unfold register. destruct (reg !! c) as [hs |] eqn:E.
  - by rewrite lookup_insert_eq, E.
  - by rewrite !lookup_insert_eq.
Qed.

Lemma register_lookup_ne c c' h (reg : gmap EventClass (list Handler)) :
  c <> c' -> register c h reg !! c' = reg !! c'.
Proof.
  intros Hne. unfold register. destruct (reg !! c) as [hs |] eqn:E.
  - by rewrite lookup_insert_ne.
  - by rewrite !lookup_insert_ne.
Qed.

(** The two shortcuts register like [subscribe] does. *)
Lemma on_new_message_subscribe h s : on_new_message h s = subscribe NewMessage h s.
Proof. reflexivity. Qed.

Lemma on_new_domain_subscribe h s : on_new_domain h s = subscribe DomainChange h s.
Proof. reflexivity. Qed.

Lemma registered_handlers regs s0 c :
  default [] (handlers (registered regs s0) !! c)
  = default [] (handlers s0 !! c) ++ handlers_for c regs.
Proof.
  revert s0. induction regs as [| [c1 h1] regs IH]; intros s0.
  - simpl. by rewrite app_nil_r.
  - unfold registered in *. simpl. rewrite IH. simpl.
    unfold handlers_for. rewrite filter_cons. simpl.
    destruct (decide (c1 = c)) as [-> | Hne].
    + rewrite register_lookup_eq. simpl. by rewrite <- app_assoc.
    + by rewrite register_lookup_ne.
Qed.

Lemma registered_setup regs s0 :
  _last_msg (registered regs s0) = _last_msg s0 /\
  _last_domain (registered regs s0) = _last_domain s0.
Proof.
  revert s0. induction regs as [| [c1 h1] regs IH]; intros s0; [done |].
  unfold registered in *. simpl. by rewrite !(proj1 (IH _)), !(proj2 (IH _)).
Qed.

(** The fan-out stops at the first handler that raises. *)
Lemma for_handlers_run hs e w :
  exists done rest,
    hs = done ++ rest /\
    ((rest = [] /\
      for_handlers hs e w
      = ({| srv := srv w; trace := trace w ++ completed done e |}, Ok tt)) \/
     (exists h x rest',
        rest = h :: rest' /\
        hbody h (trace w ++ completed done e) e = Some x /\
        for_handlers hs e w
        = ({| srv := srv w;
              trace := trace w ++ completed done e
                         ++ [ACall (hname h) e; AFail (hname h) x] |}, Raise x))).
Proof.
  revert w. induction hs as [| h hs IH]; intros [s t].
  - exists [], []. split; [done |]. left. split; [done |].
    simpl. unfold ret, completed. simpl. by rewrite app_nil_r.
  - simpl. unfold bind at 1. unfold call_handler, bind, history, emit. simpl.
    destruct (hbody h t e) as [x |] eqn:Hb; simpl.
    + exists [], (h :: hs). split; [done |]. right. exists h, x, hs.
      unfold completed. simpl. rewrite app_nil_r. split; [done |]. split; [done |].
      unfold raise. by rewrite <- app_assoc.
    + destruct (IH {| srv := s; trace := (t ++ [ACall (hname h) e]) ++ [ADone (hname h)] |})
        as (done & rest & -> & Hcase).
      exists (h :: done), rest. split; [done |].
      assert (Happ : forall tl, ((t ++ [ACall (hname h) e]) ++ [ADone (hname h)]) ++ tl
                     = t ++ [ACall (hname h) e; ADone (hname h)] ++ tl).
      { intros tl. by rewrite <- !app_assoc. }
      simpl in Hcase. destruct Hcase as [[-> Hrun] | (h' & x & rest' & -> & Hfail & Hrun)].
      * left. split; [done |]. rewrite Hrun. unfold completed. simpl.
        by rewrite Happ.
      * right. exists h', x, rest'. split; [done |].
        unfold completed in *. simpl. rewrite Happ in Hfail, Hrun. by split.
Qed.

(** C5.  After any history of registrations on a fresh server, dispatching
    an event calls the handlers registered for the class of that event, and
    only those, in the order of their registration, one call per
    registration (so a handler registered twice is called twice).  Each call
    is completed before the next handler is entered.  When a handler raises,
    the fan-out stops there and the exception leaves [dispatch]; otherwise
    every registered handler has been called.  The server is not changed. *)
Theorem dispatch_follows_registration_order
    (regs : list (EventClass * Handler))
    (pooling_rate : option Z) (banner : option bool) (banner_path : option string)
    (suppress_errors enable_logging : option bool)
    (e : Event) (t : list Action) :
  let s := registered regs
             (init pooling_rate banner banner_path suppress_errors enable_logging) in
  exists done rest,
    handlers_for (type_of e) regs = done ++ rest /\
    ((rest = [] /\
      dispatch e {| srv := s; trace := t |}
      = ({| srv := s; trace := t ++ completed done e |}, Ok tt)) \/
     (exists h x rest',
        rest = h :: rest' /\
        hbody h (t ++ completed done e) e = Some x /\
        dispatch e {| srv := s; trace := t |}
        = ({| srv := s;
              trace := t ++ completed done e
                         ++ [ACall (hname h) e; AFail (hname h) x] |}, Raise x))).
Proof.
  intros s.
  assert (Hh : default [] (handlers s !! type_of e) = handlers_for (type_of e) regs).
  { unfold s. by rewrite registered_handlers. }
  unfold dispatch, bind, get. simpl. rewrite Hh.
  apply (for_handlers_run _ e {| srv := s; trace := t |}).
Qed.

(** ** C8: the holders hold at most one entity *)

Lemma holders_store_msg s (l : list Message) :
  length l = Nat.max 1 (length (_last_msg s)) ->
  holders_ok s -> holders_ok (set_last_msg l s).
Proof. unfold holders_ok. simpl. lia. Qed.

Lemma holders_store_domain s (l : list Domain) :
  length l = Nat.max 1 (length (_last_domain s)) ->
  holders_ok s -> holders_ok (set_last_domain l s).
Proof. unfold holders_ok. simpl. lia. Qed.

(** C8.  On a fresh server both last-seen holders are empty, and every
    operation of the server (the three ways to register, the logger,
    dispatch, the two checks, one iteration of the loop, the whole of
    [runner] and of [run]) leads from a server whose holders have at most one
    element each to a server whose holders have at most one element each. *)
Theorem holders_hold_at_most_one :
  (forall pooling_rate banner banner_path suppress_errors enable_logging,
      let s := init pooling_rate banner banner_path suppress_errors enable_logging in
      _last_msg s = [] /\ _last_domain s = [] /\ holders_ok s) /\
  (forall (op : Op) (w : World),
      holders_ok (srv w) -> holders_ok (srv (apply_op op w))).
Proof.
  split.
  - intros. unfold holders_ok. simpl. repeat split; lia.
  - pose proof discipline_holders as D.
    pose proof holders_store_msg as Hm. pose proof holders_store_domain as Hd.
    intros op w Hw. destruct op; simpl; try exact Hw.
    + by apply (respects_log _ _ D message sev w).
    + by apply (respects_dispatch _ _ D event ltac:(done) w).
    + by apply (respects_check_for_new_messages _ _ D fetch
                  ltac:(done) ltac:(done) ltac:(done) Hm w).
    + by apply (respects_check_for_new_domain _ _ D fetch
                  ltac:(done) ltac:(done) ltac:(done) Hd w).
    + by apply (respects_loop_body _ _ D env ltac:(done) Hm Hd w).
    + by apply (respects_runner _ _ D env ltac:(done) Hm Hd w).
    + by apply (respects_run _ _ D env ltac:(done) Hm Hd w).
Qed.

Lemma holders_hold_at_most_one_witness :
  let m := {| msg_id := "m1"; msg_from_address := "ann@example.org"; msg_payload := "hello" |} in
  let h := {| hname := "h"; hbody := fun _ _ => None |} in
  let w := {| srv := on_new_message h (init_default (Some 1)); trace := [] |} in
  let env := {| sleep_outcome := None;
                msg_fetch := Returns (Some {| messages := [m] |});
                domain_fetch := Returns None |} in
  holders_ok (srv (apply_op (OpLoopBody env) (apply_op (OpLoopBody env) w))).
Proof.
  intros m h w env.
  apply (proj2 holders_hold_at_most_one (OpLoopBody env)).
  apply (proj2 holders_hold_at_most_one (OpLoopBody env)).
  unfold holders_ok. simpl. lia.
Defined.

(** ** C9: writes to the holders *)

Lemma count_app p t1 t2 : count p (t1 ++ t2) = (count p t1 + count p t2)%nat.
Proof. induction t1 as [| a t1 IH]; simpl; [done |]. rewrite IH. lia. Qed.

Lemma count_none p d : Forall (fun a => p a = false) d -> count p d = 0%nat.
Proof. induction 1 as [| a d Ha _ IH]; simpl; [done |]. by rewrite Ha, IH. Qed.

Lemma discipline_unless (p : Action -> bool) :
  (forall a, neutral a = true -> p a = false) ->
  discipline (fun a => p a = false) (fun _ _ => True).
Proof. intros H. by split. Qed.

Lemma neutral_no_write sl a : neutral a = true -> is_write sl a = false.
Proof. by destruct a. Qed.

Lemma neutral_no_close a : neutral a = true -> is_close a = false.
Proof. by destruct a. Qed.

(** A computation that respects the actions outside [p] leaves the number of
    [p]-actions of the trace as it is. *)
Lemma respects_count {A} (p : Action -> bool) okS (m : IO A) w :
  respects (fun a => p a = false) okS m ->
  count p (trace (fst (m w))) = count p (trace w).
Proof.
  intros H. destruct (H w) as [(d & -> & Hd) _].
  rewrite count_app, (count_none p d Hd). lia.
Qed.

Lemma store_last_msg_eq m s t :
  store_last_msg m {| srv := s; trace := t |}
  = ({| srv := set_last_msg (m :: tail (_last_msg s)) s;
        trace := t ++ [AWrite LastMsg] |}, Ok tt).
Proof.
  unfold store_last_msg, bind, get, emit, put. simpl.
  by destruct (_last_msg s).
Qed.

Lemma store_last_domain_eq d s t :
  store_last_domain d {| srv := s; trace := t |}
  = ({| srv := set_last_domain (d :: tail (_last_domain s)) s;
        trace := t ++ [AWrite LastDomain] |}, Ok tt).
Proof.
  unfold store_last_domain, bind, get, emit, put. simpl.
  by destruct (_last_domain s).
Qed.

(** Dispatch followed by the log line: the server stays, nothing is written
    to a holder. *)
Lemma dispatch_then_log e message sev w :
  let w' := fst ((dispatch e ;> log message sev) w) in
  srv w' = srv w /\ forall sl, writes sl (trace w') = writes sl (trace w).
Proof.
  simpl. split.
  - pose proof discipline_keep as D.
    apply (respects_bind _ _ D (dispatch e) (fun _ => log message sev)).
    + by apply (respects_dispatch _ _ D).
    + intros _. apply (respects_log _ _ D).
  - intros sl. unfold writes.
    pose proof (discipline_unless (is_write sl) (neutral_no_write sl)) as D.
    apply (respects_count _ (fun _ _ => True)).
    apply (respects_bind _ _ D).
    + by apply (respects_dispatch _ _ D).
    + intros _. apply (respects_log _ _ D).
Qed.

(** The two branches of a check whose fetch brought an entity. *)
Lemma check_for_new_messages_changed m0 ms s t :
  msg_changed (_last_msg s) m0 = true ->
  _check_for_new_messages (Returns (Some {| messages := m0 :: ms |}))
    {| srv := s; trace := t |}
  = (dispatch (NewMessageEv m0) ;>
     log ("RECIEVED new message from: " ++ msg_from_address m0) INFO)
      {| srv := set_last_msg (m0 :: tail (_last_msg s)) s;
         trace := t ++ [AGetMessages; AWrite LastMsg] |}.
Proof.
  intros H. unfold _check_for_new_messages.
  unfold bind at 1 2. unfold emit, await, get. simpl.
  unfold bind at 1. simpl. rewrite H.
  unfold bind at 1. rewrite store_last_msg_eq. by rewrite <- app_assoc.
Qed.

Lemma check_for_new_messages_unchanged m0 ms s t :
  msg_changed (_last_msg s) m0 = false ->
  _check_for_new_messages (Returns (Some {| messages := m0 :: ms |}))
    {| srv := s; trace := t |}
  = ({| srv := s; trace := t ++ [AGetMessages] |}, Ok tt).
Proof.
  intros H. unfold _check_for_new_messages.
  unfold bind at 1 2. unfold emit, await, get. simpl.
  unfold bind at 1. simpl. by rewrite H.
Qed.

Lemma check_for_new_domain_changed d0 ds s t :
  domain_changed (_last_domain s) d0 = true ->
  _check_for_new_domain (Returns (Some {| domains := d0 :: ds |}))
    {| srv := s; trace := t |}
  = (dispatch (DomainChangeEv d0) ;>
     log ("Domain Changed: " ++ domain_name d0) WARNING)
      {| srv := set_last_domain (d0 :: tail (_last_domain s)) s;
         trace := t ++ [AGetDomains; AWrite LastDomain] |}.
Proof.
  intros H. unfold _check_for_new_domain.
  unfold bind at 1 2. unfold emit, await, get. simpl.
  unfold bind at 1. simpl. rewrite H.
  unfold bind at 1. rewrite store_last_domain_eq. by rewrite <- app_assoc.
Qed.

Lemma check_for_new_domain_unchanged d0 ds s t :
  domain_changed (_last_domain s) d0 = false ->
  _check_for_new_domain (Returns (Some {| domains := d0 :: ds |}))
    {| srv := s; trace := t |}
  = ({| srv := s; trace := t ++ [AGetDomains] |}, Ok tt).
Proof.
  intros H. unfold _check_for_new_domain.
  unfold bind at 1 2. unfold emit, await, get. simpl.
  unfold bind at 1. simpl. by rewrite H.
Qed.

Lemma check_for_new_messages_present m0 ms s t :
  let w' := fst (_check_for_new_messages (Returns (Some {| messages := m0 :: ms |}))
                   {| srv := s; trace := t |}) in
  writes LastMsg (trace w')
    = (writes LastMsg t + (if msg_changed (_last_msg s) m0 then 1 else 0))%nat /\
  writes LastDomain (trace w') = writes LastDomain t /\
  srv w' = (if msg_changed (_last_msg s) m0
            then set_last_msg (m0 :: tail (_last_msg s)) s else s).
Proof.
  destruct (msg_changed (_last_msg s) m0) eqn:E.
  - rewrite check_for_new_messages_changed by done.
    match goal with
    | |- context [fst (bind (dispatch ?e) (fun _ => log ?m ?v) ?w1)] =>
        destruct (dispatch_then_log e m v w1) as [Hs Hw]
    end.
    simpl in Hs, Hw. simpl. rewrite Hs, !Hw.
    unfold writes. rewrite !count_app. simpl. repeat split; lia.
  - rewrite check_for_new_messages_unchanged by done. simpl.
    unfold writes. rewrite !count_app. simpl. repeat split; lia.
Qed.

Lemma check_for_new_domain_present d0 ds s t :
  let w' := fst (_check_for_new_domain (Returns (Some {| domains := d0 :: ds |}))
                   {| srv := s; trace := t |}) in
  writes LastDomain (trace w')
    = (writes LastDomain t + (if domain_changed (_last_domain s) d0 then 1 else 0))%nat /\
  writes LastMsg (trace w') = writes LastMsg t /\
  srv w' = (if domain_changed (_last_domain s) d0
            then set_last_domain (d0 :: tail (_last_domain s)) s else s).
Proof.
  destruct (domain_changed (_last_domain s) d0) eqn:E.
  - rewrite check_for_new_domain_changed by done.
    match goal with
    | |- context [fst (bind (dispatch ?e) (fun _ => log ?m ?v) ?w1)] =>
        destruct (dispatch_then_log e m v w1) as [Hs Hw]
    end.
    simpl in Hs, Hw. simpl. rewrite Hs, !Hw.
    unfold writes. rewrite !count_app. simpl. repeat split; lia.
  - rewrite check_for_new_domain_unchanged by done. simpl.
    unfold writes. rewrite !count_app. simpl. repeat split; lia.
Qed.

Lemma bind_fst_cases {A B} (m : IO A) (k : A -> IO B) w :
  fst (bind m k w) = fst (m w) \/ exists a, fst (bind m k w) = fst (k a (fst (m w))).
Proof. unfold bind. destruct (m w) as [w' [a | e |]]; simpl; eauto. Qed.

Lemma dispatch_keeps e w :
  srv (fst (dispatch e w)) = srv w /\
  forall sl, writes sl (trace (fst (dispatch e w))) = writes sl (trace w).
Proof.
  split.
  - by apply (respects_dispatch _ _ discipline_keep).
  - intros sl. apply (respects_count _ (fun _ _ => True)).
    by apply (respects_dispatch _ _ (discipline_unless _ (neutral_no_write sl))).
Qed.

Lemma check_for_new_messages_writes fetch w :
  let w' := fst (_check_for_new_messages fetch w) in
  (writes LastMsg (trace w') <= writes LastMsg (trace w) + 1)%nat /\
  writes LastDomain (trace w') = writes LastDomain (trace w).
Proof.
  simpl. split.
  - destruct w as [s t]. destruct fetch as [[[[| m0 ms]] |] | x].
    + unfold writes. simpl. rewrite count_app. simpl. lia.
    + destruct (check_for_new_messages_present m0 ms s t) as (-> & _ & _).
      simpl. destruct (msg_changed _ _); lia.
    + unfold writes. simpl. rewrite count_app. simpl. lia.
    + unfold writes. simpl. rewrite count_app. simpl. lia.
  - apply (respects_count _ (fun _ _ => True)).
    by apply (respects_check_for_new_messages _ _
                (discipline_unless _ (neutral_no_write LastDomain))).
Qed.

Lemma check_for_new_domain_writes fetch w :
  let w' := fst (_check_for_new_domain fetch w) in
  (writes LastDomain (trace w') <= writes LastDomain (trace w) + 1)%nat /\
  writes LastMsg (trace w') = writes LastMsg (trace w).
Proof.
  simpl. split.
  - destruct w as [s t]. destruct fetch as [[[[| d0 ds]] |] | x].
    + unfold writes. simpl. rewrite count_app. simpl. lia.
    + destruct (check_for_new_domain_present d0 ds s t) as (-> & _ & _).
      simpl. destruct (domain_changed _ _); lia.
    + unfold writes. simpl. rewrite count_app. simpl. lia.
    + unfold writes. simpl. rewrite count_app. simpl. lia.
  - apply (respects_count _ (fun _ _ => True)).
    by apply (respects_check_for_new_domain _ _
                (discipline_unless _ (neutral_no_write LastMsg))).
Qed.

Lemma msg_phase_writes env w :
  let w' := fst (msg_phase env w) in
  (writes LastMsg (trace w') <= writes LastMsg (trace w) + 1)%nat /\
  writes LastDomain (trace w') = writes LastDomain (trace w).
Proof.
  unfold msg_phase, bind, get. simpl. case_decide.
  - apply check_for_new_messages_writes.
  - simpl. lia.
Qed.

Lemma dom_phase_writes env w :
  let w' := fst (dom_phase env w) in
  (writes LastDomain (trace w') <= writes LastDomain (trace w) + 1)%nat /\
  writes LastMsg (trace w') = writes LastMsg (trace w).
Proof.
  unfold dom_phase, bind, get. simpl. case_decide.
  - apply check_for_new_domain_writes.
  - simpl. lia.
Qed.

Lemma subscription_check_writes sl w :
  writes sl (trace (fst (subscription_check w))) = writes sl (trace w).
Proof.
  apply (respects_count _ (fun _ _ => True)).
  by apply (respects_subscription_check _ _ (discipline_unless _ (neutral_no_write sl))).
Qed.

Lemma loop_body_writes env w :
  let w' := fst (loop_body env w) in
  (writes LastMsg (trace w') <= writes LastMsg (trace w) + 1)%nat /\
  (writes LastDomain (trace w') <= writes LastDomain (trace w) + 1)%nat.
Proof.
  simpl. rewrite loop_body_phases.
  assert (H1 : forall sl, writes sl (trace (fst (sleep_phase env w))) = writes sl (trace w)).
  { intros sl. rewrite sleep_phase_eq. simpl. unfold writes. rewrite count_app. simpl. lia. }
  pose proof (H1 LastMsg) as H1m. pose proof (H1 LastDomain) as H1d.
  destruct (bind_fst_cases (sleep_phase env)
              (fun _ => msg_phase env ;> dom_phase env ;> subscription_check) w)
    as [-> | [_ ->]]; [lia |].
  destruct (msg_phase_writes env (fst (sleep_phase env w))) as [H2 H2'].
  destruct (bind_fst_cases (msg_phase env)
              (fun _ => dom_phase env ;> subscription_check) (fst (sleep_phase env w)))
    as [-> | [_ ->]]; [lia |].
  destruct (dom_phase_writes env (fst (msg_phase env (fst (sleep_phase env w)))))
    as [H3 H3'].
  destruct (bind_fst_cases (dom_phase env) (fun _ => subscription_check)
              (fst (msg_phase env (fst (sleep_phase env w)))))
    as [-> | [_ ->]]; [lia |].
  rewrite !subscription_check_writes. lia.
Qed.

(** C9, as amended.  A holder is written by its own check and by nothing
    else.  When the fetch brought an entity, the check writes the holder of
    its category exactly once if that holder was empty or held another
    identifier, leaving the fetched entity at index 0, and does not write it
    at all if the holder held the same identifier; it never writes the other
    holder.  One iteration of the loop therefore writes each holder at most
    once.  Dispatch, the logger and registration write neither holder. *)
Theorem holder_written_once_on_change_only (s : Server) (t : list Action) :
  (forall m0 ms,
      let w' := fst (_check_for_new_messages (Returns (Some {| messages := m0 :: ms |}))
                       {| srv := s; trace := t |}) in
      writes LastMsg (trace w')
        = (writes LastMsg t + (if msg_changed (_last_msg s) m0 then 1 else 0))%nat /\
      writes LastDomain (trace w') = writes LastDomain t /\
      srv w' = (if msg_changed (_last_msg s) m0
                then set_last_msg (m0 :: tail (_last_msg s)) s else s)) /\
  (forall d0 ds,
      let w' := fst (_check_for_new_domain (Returns (Some {| domains := d0 :: ds |}))
                       {| srv := s; trace := t |}) in
      writes LastDomain (trace w')
        = (writes LastDomain t + (if domain_changed (_last_domain s) d0 then 1 else 0))%nat /\
      writes LastMsg (trace w') = writes LastMsg t /\
      srv w' = (if domain_changed (_last_domain s) d0
                then set_last_domain (d0 :: tail (_last_domain s)) s else s)) /\
  (forall env,
      let w' := fst (loop_body env {| srv := s; trace := t |}) in
      (writes LastMsg (trace w') <= writes LastMsg t + 1)%nat /\
      (writes LastDomain (trace w') <= writes LastDomain t + 1)%nat) /\
  (forall e,
      let w' := fst (dispatch e {| srv := s; trace := t |}) in
      srv w' = s /\ forall sl, writes sl (trace w') = writes sl t) /\
  (forall message sev,
      let w' := fst (log message sev {| srv := s; trace := t |}) in
      srv w' = s /\ forall sl, writes sl (trace w') = writes sl t) /\
  (forall c h,
      _last_msg (subscribe c h s) = _last_msg s /\
      _last_domain (subscribe c h s) = _last_domain s).
Proof.
  split; [intros; apply check_for_new_messages_present |].
  split; [intros; apply check_for_new_domain_present |].
  split; [intros; apply (loop_body_writes env {| srv := s; trace := t |}) |].
  split; [intros; apply (dispatch_keeps e {| srv := s; trace := t |}) |].
  split; [| done].
  intros message sev. rewrite log_eq. simpl. split; [done |].
  intros sl. unfold writes. rewrite count_app.
  rewrite (count_none (is_write sl) (log_lines s message sev)); [lia |].
  eapply Forall_impl; [apply log_lines_print |].
  intros a Ha. simpl in Ha. by destruct a.
Qed.

(** C9, as stated, fails: on a server that has seen message m1, an iteration
    whose fetch brings m1 again performs the fetch and writes the holder not
    once but not at all. *)
Lemma repeated_fetch_writes_nothing :
  let m1 := {| msg_id := "m1"; msg_from_address := "ann@example.org"; msg_payload := "hello" |} in
  let h := {| hname := "h"; hbody := fun _ _ => None |} in
  let env := {| sleep_outcome := None;
                msg_fetch := Returns (Some {| messages := [m1] |});
                domain_fetch := Returns None |} in
  let s1 := srv (fst (loop_body env (start (on_new_message h (init_default (Some 1)))))) in
  let w2 := fst (loop_body env (start s1)) in
  _last_msg s1 = [m1] /\
  trace w2 = [ASleep 1; AGetMessages] /\
  writes LastMsg (trace w2) = 0%nat /\
  writes LastMsg (trace w2) <> 1%nat.
Proof. vm_compute. repeat split; congruence. Qed.

(** ** C2: the four-tick scenario *)

(** C2.  One handler is registered for NewMessage, and it returns normally.
    Over four iterations the fetch brings nothing, then a message with
    identifier m1, then again a message with identifier m1, then a message
    with identifier m2.  After the first iteration the handler has not been
    called; the second calls it with the first message; the third does not
    call it; the fourth calls it with the message m2.  So it is called
    exactly twice, for m1 and then for m2, and the loop is still running.
    This holds for every configuration, whatever the other fields of the
    messages, the older messages of each view and the domain fetches are. *)
Theorem four_tick_scenario
    (pooling_rate : option Z) (banner : option bool) (banner_path : option string)
    (suppress_errors enable_logging : option bool)
    (name a1 p1 a2 p2 a3 p3 : string) (o2 o3 o4 : list Message)
    (d1 d2 d3 d4 : outcome (option DomainView)) :
  let h := {| hname := name; hbody := fun _ _ => None |} in
  let s := on_new_message h
             (init pooling_rate banner banner_path suppress_errors enable_logging) in
  let m1 := {| msg_id := "m1"; msg_from_address := a1; msg_payload := p1 |} in
  let m1' := {| msg_id := "m1"; msg_from_address := a2; msg_payload := p2 |} in
  let m2 := {| msg_id := "m2"; msg_from_address := a3; msg_payload := p3 |} in
  let tick f d := {| sleep_outcome := None; msg_fetch := Returns f; domain_fetch := d |} in
  let script :=
    [ tick None d1;
      tick (Some {| messages := m1 :: o2 |}) d2;
      tick (Some {| messages := m1' :: o3 |}) d3;
      tick (Some {| messages := m2 :: o4 |}) d4 ] in
  let after k := fst (while_true (take k script) (start s)) in
  calls (trace (after 1%nat)) = [] /\
  calls (trace (after 2%nat)) = [(name, NewMessageEv m1)] /\
  calls (trace (after 3%nat)) = [(name, NewMessageEv m1)] /\
  calls (trace (after 4%nat)) = [(name, NewMessageEv m1); (name, NewMessageEv m2)] /\
  snd (while_true script (start s)) = Pending /\
  _last_msg (srv (after 4%nat)) = [m2].
Proof.
  destruct suppress_errors as [[|] |], enable_logging as [[|] |];
    vm_compute; repeat split; reflexivity.
Qed.

(** ** C4: messages before domains *)

Lemma neutral_no_msg_action a : neutral a = true -> msg_action a = false.
Proof. by destruct a. Qed.

Lemma neutral_no_dom_action a : neutral a = true -> dom_action a = false.
Proof. by destruct a. Qed.

(** The message phase performs no action of domain detection. *)
Lemma msg_phase_actions env w :
  exists dm,
    trace (fst (msg_phase env w)) = trace w ++ dm /\
    Forall (fun a => dom_action a = false) dm.
Proof.
  pose proof (discipline_unless dom_action neutral_no_dom_action) as D.
  by destruct (respects_msg_phase _ _ D env
                 ltac:(done) ltac:(done) ltac:(done) ltac:(done) w) as [? _].
Qed.

(** The domain phase and the closing test perform no action of message
    detection. *)
Lemma dom_phase_actions env w :
  exists dd,
    trace (fst ((dom_phase env ;> subscription_check) w)) = trace w ++ dd /\
    Forall (fun a => msg_action a = false) dd.
Proof.
  pose proof (discipline_unless msg_action neutral_no_msg_action) as D.
  assert (H : respects (fun a => msg_action a = false) (fun _ _ => True)
                (dom_phase env ;> subscription_check)).
  { apply (respects_bind _ _ D); [by apply (respects_dom_phase _ _ D) | intros _].
    by apply (respects_subscription_check _ _ D). }
  by destruct (H w) as [? _].
Qed.

Lemma loop_body_message_actions_first env s t :
  exists dm dd,
    trace (fst (loop_body env {| srv := s; trace := t |}))
      = t ++ ASleep (sleep_interval s) :: dm ++ dd /\
    Forall (fun a => dom_action a = false) dm /\
    Forall (fun a => msg_action a = false) dd.
Proof.
  rewrite loop_body_phases. unfold bind at 1. rewrite sleep_phase_eq. simpl.
  destruct (sleep_outcome env) as [x |]; simpl.
  { exists [], []. by repeat split. }
  set (w1 := {| srv := s; trace := t ++ [ASleep (sleep_interval s)] |}).
  destruct (msg_phase_actions env w1) as (dm & Hdm & Fdm).
  destruct (bind_fst_cases (msg_phase env)
              (fun _ => dom_phase env ;> subscription_check) w1) as [-> | [_ ->]].
  - exists dm, []. rewrite Hdm. simpl. rewrite app_nil_r, <- app_assoc. by repeat split.
  - destruct (dom_phase_actions env (fst (msg_phase env w1))) as (dd & Hdd & Fdd).
    exists dm, dd. rewrite Hdd, Hdm. simpl. rewrite <- !app_assoc. by repeat split.
Qed.

Lemma log_lines_set_last_msg l s message sev :
  log_lines (set_last_msg l s) message sev = log_lines s message sev.
Proof. reflexivity. Qed.

Lemma dispatch_all_return e hs s t :
  handlers s !! type_of e = Some hs ->
  (forall h, In h hs -> forall past ev, hbody h past ev = None) ->
  dispatch e {| srv := s; trace := t |}
  = ({| srv := s; trace := t ++ completed hs e |}, Ok tt).
Proof.
  intros Hh Hall. unfold dispatch, bind, get. simpl. rewrite Hh. simpl.
  by rewrite for_handlers_all_return.
Qed.

(** C4.  In every iteration all actions of message detection and dispatch
    (the message fetch, the write of the message holder, the calls of
    NewMessage handlers) come before all actions of domain detection and
    dispatch (the domain fetch, the write of the domain holder, the calls of
    DomainChange handlers): the trace of the iteration is the sleep, then a
    part free of domain actions, then a part free of message actions.  In
    particular, when both classes have handlers, both fetches bring a change
    and the NewMessage handlers return, every NewMessage handler has been
    entered and has returned, in registration order, before the domain fetch
    is issued. *)
Theorem messages_are_handled_before_domains :
  (forall env s t,
      exists dm dd,
        trace (fst (loop_body env {| srv := s; trace := t |}))
          = t ++ ASleep (sleep_interval s) :: dm ++ dd /\
        Forall (fun a => dom_action a = false) dm /\
        Forall (fun a => msg_action a = false) dd) /\
  (forall env s t hsM m0 ms d0 ds,
      handlers s !! NewMessage = Some hsM ->
      is_Some (handlers s !! DomainChange) ->
      sleep_outcome env = None ->
      msg_fetch env = Returns (Some {| messages := m0 :: ms |}) ->
      msg_changed (_last_msg s) m0 = true ->
      domain_fetch env = Returns (Some {| domains := d0 :: ds |}) ->
      domain_changed (_last_domain s) d0 = true ->
      (forall h, In h hsM -> forall past e, hbody h past e = None) ->
      exists prints dd,
        Forall (fun a => is_print a = true) prints /\
        Forall (fun a => msg_action a = false) dd /\
        trace (fst (loop_body env {| srv := s; trace := t |}))
          = t ++ [ASleep (sleep_interval s); AGetMessages; AWrite LastMsg]
              ++ completed hsM (NewMessageEv m0)
              ++ prints
              ++ [AGetDomains; AWrite LastDomain] ++ dd).
Proof.
  split; [apply loop_body_message_actions_first |].
  intros env s t hsM m0 ms d0 ds HhM HhD Hsleep Hmf Hmc Hdf Hdc Hall.
  rewrite loop_body_phases. unfold bind at 1. rewrite sleep_phase_eq, Hsleep. simpl.
  unfold bind at 1.
  assert (Hmsg : msg_phase env {| srv := s; trace := t ++ [ASleep (sleep_interval s)] |}
          = ({| srv := set_last_msg (m0 :: tail (_last_msg s)) s;
                trace := (t ++ [ASleep (sleep_interval s)]) ++ [AGetMessages; AWrite LastMsg]
                           ++ completed hsM (NewMessageEv m0)
                           ++ log_lines s ("RECIEVED new message from: " ++ msg_from_address m0) INFO |},
              Ok tt)).
  { unfold msg_phase, bind at 1, get. simpl. rewrite HhM.
    rewrite decide_True by done. rewrite Hmf.
    rewrite check_for_new_messages_changed by done.
    unfold bind at 1.
    rewrite (dispatch_all_return (NewMessageEv m0) hsM
               (set_last_msg (m0 :: tail (_last_msg s)) s) _ HhM Hall).
    rewrite log_eq. simpl. rewrite log_lines_set_last_msg.
    rewrite <- !app_assoc. reflexivity. }
  rewrite Hmsg. clear Hmsg.
  set (prints := log_lines s _ INFO).
  set (s2 := set_last_msg _ s).
  set (t2 := (t ++ _) ++ _).
  assert (Hdom : dom_phase env {| srv := s2; trace := t2 |}
          = (dispatch (DomainChangeEv d0) ;>
             log ("Domain Changed: " ++ domain_name d0) WARNING)
              {| srv := set_last_domain (d0 :: tail (_last_domain s2)) s2;
                 trace := t2 ++ [AGetDomains; AWrite LastDomain] |}).
  { unfold dom_phase, bind at 1, get. simpl.
    rewrite decide_True by done. rewrite Hdf.
    by rewrite check_for_new_domain_changed. }
  set (w3 := {| srv := set_last_domain (d0 :: tail (_last_domain s2)) s2;
                trace := t2 ++ [AGetDomains; AWrite LastDomain] |}) in *.
  pose proof (discipline_unless msg_action neutral_no_msg_action) as D.
  assert (Hr : respects (fun a => msg_action a = false) (fun _ _ => True)
                 (dispatch (DomainChangeEv d0) ;>
                  log ("Domain Changed: " ++ domain_name d0) WARNING)).
  { apply (respects_bind _ _ D); [by apply (respects_dispatch _ _ D) | intros _].
    apply (respects_log _ _ D). }
  destruct (Hr w3) as [(dd1 & Hdd1 & Fdd1) _].
  pose proof (respects_subscription_check _ _ D ltac:(done)) as Hc.
  exists prints.
  assert (Ht3 : forall tl, trace w3 ++ tl
     = t ++ [ASleep (sleep_interval s); AGetMessages; AWrite LastMsg]
         ++ completed hsM (NewMessageEv m0) ++ prints
         ++ [AGetDomains; AWrite LastDomain] ++ tl).
  { intros tl. unfold w3, t2. norm_app. reflexivity. }
  destruct (bind_fst_cases (dom_phase env) (fun _ => subscription_check)
              {| srv := s2; trace := t2 |}) as [-> | [_ ->]]; rewrite Hdom.
  - exists dd1. split; [apply log_lines_print |]. split; [done |].
    by rewrite Hdd1, Ht3.
  - destruct (Hc (fst ((dispatch (DomainChangeEv d0) ;>
                        log ("Domain Changed: " ++ domain_name d0) WARNING) w3)))
      as [(dd2 & Hdd2 & Fdd2) _].
    exists (dd1 ++ dd2). split; [apply log_lines_print |].
    split; [by apply Forall_app |].
    by rewrite Hdd2, Hdd1, <- app_assoc, Ht3.
Qed.

Lemma messages_are_handled_before_domains_witness :
  let h1 := {| hname := "first"; hbody := fun _ _ => None |} in
  let h2 := {| hname := "second"; hbody := fun _ _ => None |} in
  let hd := {| hname := "domains"; hbody := fun _ _ => Some (PyException "boom") |} in
  let s := on_new_domain hd (on_new_message h2 (on_new_message h1 (init_default (Some 2)))) in
  let m0 := {| msg_id := "m1"; msg_from_address := "ann@example.org"; msg_payload := "hello" |} in
  let d0 := {| dom_id := "d1"; domain_name := "example.org" |} in
  let env := {| sleep_outcome := None;
                msg_fetch := Returns (Some {| messages := [m0] |});
                domain_fetch := Returns (Some {| domains := [d0] |}) |} in
  exists prints dd,
    Forall (fun a => is_print a = true) prints /\
    Forall (fun a => msg_action a = false) dd /\
    trace (fst (loop_body env {| srv := s; trace := [] |}))
      = [] ++ [ASleep (sleep_interval s); AGetMessages; AWrite LastMsg]
           ++ completed [h1; h2] (NewMessageEv m0)
           ++ prints
           ++ [AGetDomains; AWrite LastDomain] ++ dd.
Proof.
  intros h1 h2 hd s m0 d0 env.
  apply (proj2 messages_are_handled_before_domains env s [] [h1; h2] m0 [] d0 []).
  - reflexivity.
  - eexists. reflexivity.
  - reflexivity.
  - reflexivity.
  - reflexivity.
  - reflexivity.
  - reflexivity.
  - intros h [<- | [<- | []]]; reflexivity.
Defined.

(** ** C1: how often the client is closed *)

(** C1, the code at the failing inputs.  (1) With no handler registered,
    [runner] ends its first iteration by closing the client and raising,
    catches its own exception, closes the client a second time and returns:
    two calls of [close()].  (2) With a handler registered, a
    KeyboardInterrupt that arrives during the sleep leaves [runner] past its
    [except Exception] clause and is caught in [run], which only logs: no
    call of [close()] at all. *)
Theorem close_is_not_called_exactly_once
    (pooling_rate : option Z) (banner : option bool) (banner_path : option string)
    (suppress_errors enable_logging : option bool)
    (text time : string)
    (f : outcome (option MessageView)) (g : outcome (option DomainView))
    (rest : list TickEnv) (h : Handler) :
  let s := init pooling_rate banner banner_path suppress_errors enable_logging in
  let quiet := {| banner_read := Returns text; clock := time;
                  ticks := {| sleep_outcome := None; msg_fetch := f; domain_fetch := g |}
                           :: rest |} in
  let interrupted := {| banner_read := Returns text; clock := time;
                        ticks := {| sleep_outcome := Some KeyboardInterrupt;
                                    msg_fetch := f; domain_fetch := g |} :: rest |} in
  (snd (runner quiet (start s)) = Ok tt /\
   closes (trace (fst (runner quiet (start s)))) = 2%nat /\
   snd (run quiet (start s)) = Ok tt /\
   closes (trace (fst (run quiet (start s)))) = 2%nat) /\
  (snd (runner interrupted (start (on_new_message h s))) = Raise KeyboardInterrupt /\
   snd (run interrupted (start (on_new_message h s))) = Ok tt /\
   closes (trace (fst (run interrupted (start (on_new_message h s))))) = 0%nat).
Proof.
  destruct banner as [[|] |], banner_path as [p |],
    suppress_errors as [[|] |], enable_logging as [[|] |];
    vm_compute; repeat split; reflexivity.
Qed.

(** ** C3: failures end the loop *)

Lemma while_true_pending pre w w1 more :
  while_true pre w = (w1, Pending) ->
  while_true (pre ++ more) w = while_true more w1.
Proof.
  revert w. induction pre as [| env pre IH]; intros w; simpl.
  - unfold pending. by intros [= ->].
  - unfold bind. pose proof (total_loop_body env w) as Ht.
    destruct (loop_body env w) as [w' [[] | x |]]; simpl in *; [apply IH | done | done].
Qed.

Lemma subscription_check_subscribed w :
  handlers (srv w) <> ∅ -> subscription_check w = (w, Ok tt).
Proof.
  intros H. unfold subscription_check, bind, get. simpl. by rewrite decide_False.
Qed.

Lemma setup_store_msg s (l : list Message) :
  length l = Nat.max 1 (length (_last_msg s)) -> same_setup s (set_last_msg l s).
Proof. by intros _. Qed.

Lemma setup_store_domain s (l : list Domain) :
  length l = Nat.max 1 (length (_last_domain s)) -> same_setup s (set_last_domain l s).
Proof. by intros _. Qed.

(** With a handler registered, an iteration never calls [close()] and
    leaves the configuration and the registry alone. *)
Lemma loop_body_subscribed env w :
  handlers (srv w) <> ∅ ->
  moves (fun a => is_close a = false) same_setup w (fst (loop_body env w)).
Proof.
  intros Hsub. rewrite loop_body_phases.
  pose proof (discipline_setup _ neutral_no_close) as D.
  pose proof (respects_sleep_phase _ _ D env w) as H1.
  destruct (bind_fst_cases (sleep_phase env)
              (fun _ => msg_phase env ;> dom_phase env ;> subscription_check) w)
    as [-> | [_ ->]]; [done |].
  pose proof (respects_msg_phase _ _ D env ltac:(done) ltac:(done) ltac:(done)
                setup_store_msg (fst (sleep_phase env w))) as H2.
  pose proof (moves_trans _ _ D _ _ _ H1 H2) as H12.
  destruct (bind_fst_cases (msg_phase env)
              (fun _ => dom_phase env ;> subscription_check) (fst (sleep_phase env w)))
    as [-> | [_ ->]]; [done |].
  pose proof (respects_dom_phase _ _ D env ltac:(done) ltac:(done) ltac:(done)
                setup_store_domain (fst (msg_phase env (fst (sleep_phase env w))))) as H3.
  pose proof (moves_trans _ _ D _ _ _ H12 H3) as H123.
  destruct (bind_fst_cases (dom_phase env) (fun _ => subscription_check)
              (fst (msg_phase env (fst (sleep_phase env w)))))
    as [-> | [_ ->]]; [done |].
  rewrite subscription_check_subscribed; [done |].
  destruct H123 as [_ (_ & _ & _ & _ & _ & ->)]. done.
Qed.

Lemma while_true_subscribed envs w :
  handlers (srv w) <> ∅ ->
  moves (fun a => is_close a = false) same_setup w (fst (while_true envs w)).
Proof.
  pose proof (discipline_setup _ neutral_no_close) as D.
  revert w. induction envs as [| env envs IH]; intros w Hsub; simpl.
  - apply (moves_refl _ _ D).
  - pose proof (loop_body_subscribed env w Hsub) as H1.
    destruct (bind_fst_cases (loop_body env) (fun _ => while_true envs) w)
      as [-> | [_ ->]]; [done |].
    eapply (moves_trans _ _ D); [exact H1 |]. apply IH.
    destruct H1 as [_ (_ & _ & _ & _ & _ & ->)]. done.
Qed.

(** [runner] up to the entry of its loop: either the banner let a
    BaseException escape, or the loop is entered in a world [w0] that does
    not depend on the script of iterations. *)
Lemma runner_loop_entry env w :
  (exists wb x, forall envs, runner (with_ticks envs env) w = (wb, Raise x)) \/
  (exists w0,
      moves (fun a => is_close a = false) same_setup w w0 /\
      forall envs,
        runner (with_ticks envs env) w
        = try_except_Exception (while_true envs)
            (fun e => close ;> log ("Exception while running server:" ++ nl ++ str_exn e) INFO)
            w0).
Proof.
  pose proof (discipline_setup _ neutral_no_close) as D.
  assert (Hb : respects (fun a => is_close a = false) same_setup
                 (if decide (_banner_enabled (srv w) = Some true)
                  then _banner (banner_read env) else ret tt)).
  { case_decide; [apply (respects_banner _ _ D) | apply (respects_ret _ _ D)]. }
  assert (Ht : total (if decide (_banner_enabled (srv w) = Some true)
                      then _banner (banner_read env) else ret tt)).
  { case_decide; [apply total_banner | apply total_ret]. }
  specialize (Hb w). specialize (Ht w).
  destruct ((if decide (_banner_enabled (srv w) = Some true)
             then _banner (banner_read env) else ret tt) w)
    as [wb [[] | x |]] eqn:EB; simpl in Hb, Ht; [| | done].
  - right.
    set (l1 := log_lines (srv wb) ("Server-> Session Started: " ++ clock env) INFO).
    set (l2 := log_lines (srv wb)
                 ("Server-> Pooling rate: " ++ str_oint (_pooling_rate (srv wb))) INFO).
    set (l3 := log_lines (srv wb)
                 ("Server-> Logging enabled: " ++ str_obool (_logging_enabled (srv wb))) INFO).
    set (l4 := log_lines (srv wb)
                 ("Server-> Banner enabled: " ++ str_obool (_banner_enabled (srv wb))) INFO).
    set (l5 := log_lines (srv wb)
                 ("Server-> Subscribed events: " ++ pretty (size (handlers (srv wb)))) INFO).
    exists {| srv := srv wb; trace := trace wb ++ l1 ++ l2 ++ l3 ++ l4 ++ l5 |}.
    split.
    + eapply (moves_trans _ _ D); [exact Hb |]. split; simpl.
      * eexists. split; [reflexivity |].
        repeat (apply Forall_app; split);
          (eapply Forall_impl; [apply log_lines_print |]);
          intros a Ha; simpl in Ha; by destruct a.
      * apply (d_refl _ _ D).
    + intros envs. unfold runner.
      unfold bind at 1. unfold get at 1. simpl.
      unfold bind at 1. rewrite EB.
      unfold try_except_Exception.
      unfold bind at 1. unfold get at 1. simpl.
      unfold bind at 1. rewrite log_eq. simpl.
      unfold bind at 1. rewrite log_eq. simpl.
      unfold bind at 1. rewrite log_eq. simpl.
      unfold bind at 1. rewrite log_eq. simpl.
      unfold bind at 1. rewrite log_eq. simpl.
      fold l1 l2 l3 l4 l5. rewrite <- !app_assoc. reflexivity.
  - left. exists wb, x. intros envs. unfold runner.
    unfold bind at 1. unfold get at 1. simpl.
    unfold bind at 1. by rewrite EB.
Qed.

(** A failing fetch is a failing iteration. *)
Lemma msg_fetch_failure_raises env s t x :
  is_Some (handlers s !! NewMessage) ->
  sleep_outcome env = None ->
  msg_fetch env = Raises x ->
  loop_body env {| srv := s; trace := t |}
  = ({| srv := s; trace := t ++ [ASleep (sleep_interval s); AGetMessages] |}, Raise x).
Proof.
  intros Hh Hs Hf. rewrite loop_body_phases. unfold bind at 1.
  rewrite sleep_phase_eq, Hs. simpl. unfold bind at 1.
  unfold msg_phase, bind at 1, get. simpl. rewrite decide_True by done.
  rewrite Hf. unfold _check_for_new_messages, bind, emit, await. simpl.
  by rewrite <- app_assoc.
Qed.

(** A failing handler is a failing iteration. *)
Lemma msg_handler_failure_raises env s t m0 ms hs h rest x :
  handlers s !! NewMessage = Some (hs ++ h :: rest) ->
  sleep_outcome env = None ->
  msg_fetch env = Returns (Some {| messages := m0 :: ms |}) ->
  msg_changed (_last_msg s) m0 = true ->
  (forall h', In h' hs -> forall past ev, hbody h' past ev = None) ->
  (forall past, hbody h past (NewMessageEv m0) = Some x) ->
  snd (loop_body env {| srv := s; trace := t |}) = Raise x.
Proof.
  intros Hh Hs Hf Hc Hok Hbad. rewrite loop_body_phases. unfold bind at 1.
  rewrite sleep_phase_eq, Hs. simpl. unfold bind at 1.
  unfold msg_phase, bind at 1, get. simpl. rewrite Hh, decide_True by done.
  rewrite Hf, check_for_new_messages_changed by done.
  unfold bind at 1. unfold dispatch, bind at 1, get. simpl. rewrite Hh. simpl.
  assert (Hrun : forall w, snd (for_handlers (hs ++ h :: rest) (NewMessageEv m0) w) = Raise x).
  { clear -Hok Hbad. induction hs as [| h' hs IH]; intros w; simpl.
    - unfold bind at 1. unfold call_handler, bind, history, emit. simpl.
      by rewrite Hbad.
    - unfold bind at 1. unfold call_handler, bind at 1 2, history, emit. simpl.
      rewrite (Hok h') by (by left). simpl.
      apply IH. intros h'' Hin. apply Hok. by right. }
  match goal with
  | |- context [for_handlers _ _ ?w] => specialize (Hrun w)
  end.
  destruct (for_handlers _ _ _) as [w' r]. simpl in Hrun. by subst r.
Qed.

(** C3, as amended.  Let [runner] have completed the iterations [pre]
    without leaving its loop, on a server with a handler registered, and let
    the next iteration fail with an exception derived from [Exception] (a
    failing fetch and a failing handler are such iterations).  Then, however
    many further iterations the script offers, [runner] performs none of
    them: it calls [close()], for the first and only time, logs, and returns.
    The text of the exception is printed exactly when logging is enabled;
    with logging disabled, which is the default, nothing is printed. *)
Theorem failure_ends_loop_and_is_logged_if_enabled
    (env : RunEnv) (pre : list TickEnv) (tk : TickEnv)
    (s : Server) (t : list Action) (w1 w2 : World) (msg : string) :
  handlers s <> ∅ ->
  runner (with_ticks pre env) {| srv := s; trace := t |} = (w1, Pending) ->
  loop_body tk w1 = (w2, Raise (PyException msg)) ->
  exists prints,
    (forall rest,
        runner (with_ticks (pre ++ tk :: rest) env) {| srv := s; trace := t |}
        = ({| srv := srv w2; trace := trace w2 ++ AClose :: prints |}, Ok tt)) /\
    closes (trace w2 ++ AClose :: prints) = S (closes t) /\
    Forall (fun a => is_print a = true) prints /\
    (_logging_enabled s = Some true ->
     In (APrint TagInfo ("Exception while running server:" ++ nl ++ msg)) prints) /\
    (_logging_enabled s <> Some true -> prints = []).
Proof.
  intros Hsub Hpre Hbody.
  pose proof (discipline_setup _ neutral_no_close) as D.
  destruct (runner_loop_entry env {| srv := s; trace := t |})
    as [(wb & x & Hesc) | (w0 & Hmv & Hrun)].
  { rewrite Hesc in Hpre. discriminate. }
  assert (Hh0 : handlers (srv w0) <> ∅).
  { destruct Hmv as [_ (_ & _ & _ & _ & _ & Hh)]. simpl in Hh. by rewrite Hh. }
  assert (Ew : while_true pre w0 = (w1, Pending)).
  { rewrite Hrun in Hpre. unfold try_except_Exception in Hpre.
    destruct (while_true pre w0) as [w1' [[] | e |]]; [discriminate | | exact Hpre].
    destruct (is_Exception e); [| discriminate].
    unfold bind, close, emit in Hpre. simpl in Hpre. rewrite log_eq in Hpre.
    discriminate. }
  pose proof (while_true_subscribed pre w0 Hh0) as Hmv1. rewrite Ew in Hmv1. simpl in Hmv1.
  assert (Hh1 : handlers (srv w1) <> ∅).
  { destruct Hmv1 as [_ (_ & _ & _ & _ & _ & Hh)]. by rewrite Hh. }
  pose proof (loop_body_subscribed tk w1 Hh1) as Hmv2. rewrite Hbody in Hmv2. simpl in Hmv2.
  pose proof (moves_trans _ _ D _ _ _ (moves_trans _ _ D _ _ _ Hmv Hmv1) Hmv2) as Hall.
  destruct Hall as [(d & Hd & Fd) (_ & _ & _ & _ & Hlog & _)]. simpl in Hd, Hlog.
  exists (log_lines (srv w2) ("Exception while running server:" ++ nl ++ msg) INFO).
  split; [| split; [| split; [| split]]].
  - intros rest. rewrite Hrun. unfold try_except_Exception.
    rewrite (while_true_pending pre w0 w1 (tk :: rest) Ew). simpl.
    unfold bind at 1. rewrite Hbody. simpl.
    unfold bind, close, emit. simpl. rewrite log_eq. simpl.
    by rewrite <- app_assoc.
  - unfold closes. rewrite Hd, !count_app. simpl.
    rewrite (count_none is_close d Fd).
    rewrite (count_none is_close (log_lines _ _ _)); [lia |].
    eapply Forall_impl; [apply log_lines_print |].
    intros a Ha. simpl in Ha. by destruct a.
  - apply log_lines_print.
  - intros Hen. apply log_lines_info. by rewrite Hlog.
  - intros Hdis. apply log_lines_disabled. by rewrite Hlog.
Qed.

Lemma failure_ends_loop_and_is_logged_if_enabled_witness :
  let boom := {| hname := "h"; hbody := fun _ _ => Some (PyException "boom") |} in
  let s := on_new_message boom (init (Some 1) (Some false) None (Some false) (Some true)) in
  let m1 := {| msg_id := "m1"; msg_from_address := "ann@example.org"; msg_payload := "hello" |} in
  let quiet := {| sleep_outcome := None; msg_fetch := Returns None;
                  domain_fetch := Returns None |} in
  let tk := {| sleep_outcome := None;
               msg_fetch := Returns (Some {| messages := [m1] |});
               domain_fetch := Returns None |} in
  let env := {| banner_read := Returns "banner"; clock := "12:00:00"; ticks := [] |} in
  let w1 := fst (runner (with_ticks [quiet] env) (start s)) in
  let w2 := fst (loop_body tk w1) in
  exists prints,
    (forall rest,
        runner (with_ticks ([quiet] ++ tk :: rest) env) {| srv := s; trace := [] |}
        = ({| srv := srv w2; trace := trace w2 ++ AClose :: prints |}, Ok tt)) /\
    closes (trace w2 ++ AClose :: prints) = S (closes []) /\
    Forall (fun a => is_print a = true) prints /\
    (_logging_enabled s = Some true ->
     In (APrint TagInfo ("Exception while running server:" ++ nl ++ "boom")) prints) /\
    (_logging_enabled s <> Some true -> prints = []).
Proof.
  intros boom s m1 quiet tk env w1 w2.
  apply (failure_ends_loop_and_is_logged_if_enabled env [quiet] tk s [] w1 w2 "boom").
  - vm_compute. discriminate.
  - vm_compute. reflexivity.
  - vm_compute. reflexivity.
Defined.

(** C3, as stated, fails: in the default configuration logging is disabled,
    and a failure of the only handler ends [runner] normally with the client
    closed and without a single line printed. *)
Lemma default_configuration_reports_nothing :
  let boom := {| hname := "h"; hbody := fun _ _ => Some (PyException "boom") |} in
  let s := on_new_message boom (init_default (Some 1)) in
  let m1 := {| msg_id := "m1"; msg_from_address := "ann@example.org"; msg_payload := "hello" |} in
  let tk := {| sleep_outcome := None;
               msg_fetch := Returns (Some {| messages := [m1] |});
               domain_fetch := Returns None |} in
  let env := {| banner_read := Returns "banner"; clock := "12:00:00"; ticks := [tk; tk] |} in
  runner env (start s)
  = ({| srv := set_last_msg [m1] s;
        trace := [ABanner "banner"; ASleep 1; AGetMessages; AWrite LastMsg;
                  ACall "h" (NewMessageEv m1); AFail "h" (PyException "boom");
                  AClose] |}, Ok tt) /\
  count is_print (trace (fst (runner env (start s)))) = 0%nat.
Proof. vm_compute. split; reflexivity. Qed.

(** ** Two scenarios, evaluated *)

(** A handler registered twice is called twice, and a handler of another
    class is not called. *)
Example registered_twice_called_twice :
  let h := {| hname := "h"; hbody := fun _ _ => None |} in
  let k := {| hname := "k"; hbody := fun _ _ => None |} in
  let s := subscribe NewMessage h
             (on_new_domain k (on_new_message k (subscribe NewMessage h (init_default None)))) in
  let m := {| msg_id := "m1"; msg_from_address := "ann@example.org"; msg_payload := "hello" |} in
  trace (fst (dispatch (NewMessageEv m) (start s)))
  = [ACall "h" (NewMessageEv m); ADone "h";
     ACall "k" (NewMessageEv m); ADone "k";
     ACall "h" (NewMessageEv m); ADone "h"].
Proof. vm_compute. reflexivity. Qed.

(** A DomainChange handler that fails when it is called for the second
    time: the loop ends with that iteration, the client is closed once, and
    the iterations left in the script are not performed. *)
Example domain_handler_fails_on_second_call :
  let h := {| hname := "h";
              hbody := fun past _ =>
                         match calls past with
                         | [] => None
                         | _ :: _ => Some (PyException "second call")
                         end |} in
  let s := on_new_domain h (init_default (Some 3)) in
  let d1 := {| dom_id := "d1"; domain_name := "example.org" |} in
  let d2 := {| dom_id := "d2"; domain_name := "example.net" |} in
  let tick d := {| sleep_outcome := None; msg_fetch := Returns None;
                   domain_fetch := Returns (Some {| domains := [d] |}) |} in
  let env := {| banner_read := Returns "banner"; clock := "12:00:00";
                ticks := [tick d1; tick d2; tick d1; tick d2] |} in
  runner env (start s)
  = ({| srv := set_last_domain [d2] s;
        trace := [ABanner "banner";
                  ASleep 3; AGetDomains; AWrite LastDomain;
                  ACall "h" (DomainChangeEv d1); ADone "h";
                  ASleep 3; AGetDomains; AWrite LastDomain;
                  ACall "h" (DomainChangeEv d2); AFail "h" (PyException "second call");
                  AClose] |}, Ok tt).
Proof. vm_compute. reflexivity. Qed.

(** * Further properties of the code *)

(** ** The registry *)

Lemma register_dom c h (reg : gmap EventClass (list Handler)) :
  dom (register c h reg) = {[c]} ∪ dom reg.
Proof.
  unfold register. destruct (reg !! c) as [hs |] eqn:E.
  - by rewrite dom_insert_L.
  - rewrite !dom_insert_L. set_solver.
Qed.

Lemma registered_dom regs s0 :
  dom (handlers (registered regs s0))
  = dom (handlers s0) ∪ list_to_set (map fst regs).
Proof.
  revert s0. induction regs as [| [c h] regs IH]; intros s0.
  - simpl. set_solver.
  - unfold registered in *. simpl. rewrite IH. simpl. rewrite register_dom. set_solver.
Qed.

Lemma handlers_for_nil c regs :
  handlers_for c regs = [] <-> c ∉ map fst regs.
Proof.
  unfold handlers_for. induction regs as [| [c1 h1] regs IH]; simpl.
  - split; [intros _; apply not_elem_of_nil | done].
  - rewrite filter_cons. simpl. rewrite not_elem_of_cons.
    destruct (decide (c1 = c)) as [-> | Hne]; simpl.
    + split; [done | by intros [? _]].
    + rewrite IH. split; [by intros ? | by intros [_ ?]].
Qed.

(** X1.  After any history of registrations on a fresh server, a class is a
    key of the registry exactly when some registration named it, and the
    list under a key is the non-empty list of the handlers registered for
    it, in order.  The registry is empty exactly when nothing was
    registered, and its size, which [runner] logs as the number of
    subscribed events, is the number of distinct classes, not of handlers. *)
Theorem registry_after_registrations
    (regs : list (EventClass * Handler))
    (pooling_rate : option Z) (banner : option bool) (banner_path : option string)
    (suppress_errors enable_logging : option bool) :
  let s := registered regs
             (init pooling_rate banner banner_path suppress_errors enable_logging) in
  (forall c,
      handlers s !! c
      = if decide (handlers_for c regs = []) then None else Some (handlers_for c regs)) /\
  (handlers s = ∅ <-> regs = []) /\
  size (handlers s) = size (list_to_set (map fst regs) : gset EventClass).
Proof.
  intros s.
  assert (Hdom : dom (handlers s) = list_to_set (map fst regs)).
  { unfold s. rewrite registered_dom. simpl. set_solver. }
  assert (Hlook : forall c,
             handlers s !! c
             = if decide (handlers_for c regs = []) then None else Some (handlers_for c regs)).
  { intros c.
    pose proof (registered_handlers regs
                  (init pooling_rate banner banner_path suppress_errors enable_logging) c)
      as Hh.
    simpl in Hh. rewrite lookup_empty in Hh. simpl in Hh. fold s in Hh.
    case_decide as Hnil.
    - apply not_elem_of_dom. rewrite Hdom, elem_of_list_to_set.
      by apply handlers_for_nil.
    - assert (Hin : c ∈ dom (handlers s)).
      { rewrite Hdom, elem_of_list_to_set.
        destruct (decide (c ∈ map fst regs)) as [? | Hn]; [done |].
        by apply handlers_for_nil in Hn. }
      apply elem_of_dom in Hin as [l Hl]. rewrite Hl in Hh |- *. simpl in Hh.
      by rewrite Hh. }
  split; [exact Hlook |]. split.
  - split.
    + intros He. destruct regs as [| [c h] regs']; [done |].
      assert (Hc : c ∈ dom (handlers s)).
      { rewrite Hdom. simpl. set_solver. }
      rewrite He, dom_empty_L in Hc. set_solver.
    + intros ->. reflexivity.
  - by rewrite <- size_dom, Hdom.
Qed.

Lemma register_lookup c c' h (reg : gmap EventClass (list Handler)) :
  register c h reg !! c'
  = if decide (c = c') then Some (default [] (reg !! c) ++ [h]) else reg !! c'.
Proof.
  case_decide as E.
  - subst c'. apply register_lookup_eq.
  - by apply register_lookup_ne.
Qed.

(** X2.  Registrations for different classes commute: the server reached
    does not depend on which of the two was made first.  Registrations for
    one class do not: the handler registered first stands first in the list,
    and so is called first. *)
Theorem registrations_commute_across_classes (s : Server) (h1 h2 : Handler) :
  (forall c1 c2,
      c1 <> c2 ->
      subscribe c1 h1 (subscribe c2 h2 s) = subscribe c2 h2 (subscribe c1 h1 s)) /\
  (forall c,
      handlers (subscribe c h1 (subscribe c h2 s)) !! c
      = Some (default [] (handlers s !! c) ++ [h2; h1])).
Proof.
  split.
  - intros c1 c2 Hne. unfold subscribe, set_handlers. simpl. f_equal.
    apply map_eq. intros c. rewrite !register_lookup.
    repeat case_decide; subst; try done.
  - intros c. unfold subscribe. simpl. rewrite !register_lookup_eq. simpl.
    by rewrite <- app_assoc.
Qed.

Lemma registrations_commute_across_classes_witness :
  let h := {| hname := "h"; hbody := fun _ _ => None |} in
  let k := {| hname := "k"; hbody := fun _ _ => None |} in
  let s := init_default None in
  subscribe NewMessage h (subscribe DomainChange k s)
  = subscribe DomainChange k (subscribe NewMessage h s).
Proof.
  intros h k s.
  apply (proj1 (registrations_commute_across_classes s h k) NewMessage DomainChange).
  discriminate.
Defined.

(** ** The logger *)

(** X3.  [log] never raises and never changes the server.  It prints
    nothing unless logging is enabled.  With logging enabled and
    [suppress_errors] being [False], a message is printed once, under the tag
    of its severity.  With logging enabled and [suppress_errors] being
    anything else, nothing is suppressed: a warning or an error is printed
    once as a line of unrecognized severity, and an information line is
    printed twice, once under its own tag and once as unrecognized. *)
Theorem log_output_by_configuration
    (s : Server) (t : list Action) (message : string) (sev : severity) :
  (_logging_enabled s <> Some true ->
   log message sev {| srv := s; trace := t |} = ({| srv := s; trace := t |}, Ok tt)) /\
  (_logging_enabled s = Some true -> _suppress_errors s = Some false ->
   log message sev {| srv := s; trace := t |}
   = ({| srv := s; trace := t ++ [APrint (tag_of sev) message] |}, Ok tt)) /\
  (_logging_enabled s = Some true -> _suppress_errors s <> Some false ->
   log message sev {| srv := s; trace := t |}
   = ({| srv := s;
         trace := t ++ (if decide (sev = INFO) then [APrint TagInfo message] else [])
                    ++ [APrint TagUnrecognized message] |}, Ok tt)).
Proof.
  rewrite log_eq. unfold log_lines. simpl.
  split; [| split].
  - intros H. rewrite decide_False by done. rewrite ?app_nil_r. reflexivity.
  - intros H1 H2. destruct sev; repeat case_decide; try done.
  - intros H1 H2. destruct sev; repeat case_decide; try done.
Qed.

Lemma log_output_by_configuration_witness :
  let s := init None (Some false) None (Some true) (Some true) in
  log "disk full" ERROR {| srv := s; trace := [] |}
  = ({| srv := s;
        trace := [] ++ (if decide (ERROR = INFO) then [APrint TagInfo "disk full"] else [])
                    ++ [APrint TagUnrecognized "disk full"] |}, Ok tt).
Proof.
  intros s.
  apply (proj2 (proj2 (log_output_by_configuration s [] "disk full" ERROR))).
  - reflexivity.
  - discriminate.
Defined.

(** ** The checks *)







Lemma discipline_calls (P : Event -> Prop) :
  discipline (fun a => forall n e, a = ACall n e -> P e) (fun _ _ => True).
Proof.
  split; [done | done |]. intros a Ha n e ->. discriminate.
Qed.

Lemma dispatch_then_log_calls e message sev w :
  exists d,
    trace (fst ((dispatch e ;> log message sev) w)) = trace w ++ d /\
    Forall (fun a => forall n e', a = ACall n e' -> e' = e) d.
Proof.
  pose proof (discipline_calls (fun e' => e' = e)) as D.
  assert (H : respects (fun a => forall n e', a = ACall n e' -> e' = e) (fun _ _ => True)
                (dispatch e ;> log message sev)).
  { apply (respects_bind _ _ D).
    - apply (respects_dispatch _ _ D). by intros n n' e' [= _ <-].
    - intros _. apply (respects_log _ _ D). }
  by destruct (H w) as [? _].
Qed.

(** X5.  A check delivers nothing but the entity at index 0 of the view it
    fetched, as an event of its own class: every call it makes hands over
    that entity.  Older entities of the view are never delivered, and when
    the fetch raises or brings no entity no handler is called. *)
Theorem only_the_newest_entity_is_delivered (s : Server) (t : list Action) :
  (forall fetch,
      exists d,
        trace (fst (_check_for_new_messages fetch {| srv := s; trace := t |})) = t ++ d /\
        Forall (fun a => forall n e, a = ACall n e ->
                  exists m ms, fetch = Returns (Some {| messages := m :: ms |}) /\
                               e = NewMessageEv m) d) /\
  (forall fetch,
      exists d,
        trace (fst (_check_for_new_domain fetch {| srv := s; trace := t |})) = t ++ d /\
        Forall (fun a => forall n e, a = ACall n e ->
                  exists x xs, fetch = Returns (Some {| domains := x :: xs |}) /\
                               e = DomainChangeEv x) d).
Proof.
  split; intros fetch.
  - destruct fetch as [[[[| m0 ms]] |] | x];
      try (exists [AGetMessages]; split; [reflexivity |];
           constructor; [by intros ? ? [=] | constructor]).
    destruct (msg_changed (_last_msg s) m0) eqn:E.
    + rewrite check_for_new_messages_changed by done.
      destruct (dispatch_then_log_calls (NewMessageEv m0)
                  ("RECIEVED new message from: " ++ msg_from_address m0) INFO
                  {| srv := set_last_msg (m0 :: tail (_last_msg s)) s;
                     trace := t ++ [AGetMessages; AWrite LastMsg] |})
        as (d & Hd & Fd).
      exists ([AGetMessages; AWrite LastMsg] ++ d). split.
      * rewrite Hd. simpl. by rewrite <- app_assoc.
      * repeat (constructor; [by intros ? ? [=] |]).
        eapply Forall_impl; [exact Fd |].
        intros a Ha n e ->. exists m0, ms. split; [done |]. by apply (Ha n).
    + rewrite check_for_new_messages_unchanged by done.
      exists [AGetMessages]. split; [reflexivity |].
      constructor; [by intros ? ? [=] | constructor].
  - destruct fetch as [[[[| d0 ds]] |] | x];
      try (exists [AGetDomains]; split; [reflexivity |];
           constructor; [by intros ? ? [=] | constructor]).
    destruct (domain_changed (_last_domain s) d0) eqn:E.
    + rewrite check_for_new_domain_changed by done.
      destruct (dispatch_then_log_calls (DomainChangeEv d0)
                  ("Domain Changed: " ++ domain_name d0) WARNING
                  {| srv := set_last_domain (d0 :: tail (_last_domain s)) s;
                     trace := t ++ [AGetDomains; AWrite LastDomain] |})
        as (d & Hd & Fd).
      exists ([AGetDomains; AWrite LastDomain] ++ d). split.
      * rewrite Hd. simpl. by rewrite <- app_assoc.
      * repeat (constructor; [by intros ? ? [=] |]).
        eapply Forall_impl; [exact Fd |].
        intros a Ha n e ->. exists d0, ds. split; [done |]. by apply (Ha n).
    + rewrite check_for_new_domain_unchanged by done.
      exists [AGetDomains]. split; [reflexivity |].
      constructor; [by intros ? ? [=] | constructor].
Qed.

(** ** What leaves [_banner], [runner] and [run] *)







(** ** The registry gates the fetches *)

Lemma msg_phase_unsubscribed env w :
  handlers (srv w) !! NewMessage = None -> msg_phase env w = (w, Ok tt).
Proof.
  intros H. unfold msg_phase, bind, get. simpl. rewrite H.
  rewrite decide_False; [done |]. by intros [? ?].
Qed.

Lemma dom_phase_unsubscribed env w :
  handlers (srv w) !! DomainChange = None -> dom_phase env w = (w, Ok tt).
Proof.
  intros H. unfold dom_phase, bind, get. simpl. rewrite H.
  rewrite decide_False; [done |]. by intros [? ?].
Qed.

Lemma loop_body_unrelated env s t :
  handlers s !! NewMessage = None ->
  handlers s !! DomainChange = None ->
  handlers s <> ∅ ->
  sleep_outcome env = None ->
  loop_body env {| srv := s; trace := t |}
  = ({| srv := s; trace := t ++ [ASleep (sleep_interval s)] |}, Ok tt).
Proof.
  intros Hm Hd Hne Hs. rewrite loop_body_phases.
  unfold bind at 1. rewrite sleep_phase_eq, Hs. simpl.
  unfold bind at 1. rewrite msg_phase_unsubscribed by done.
  unfold bind at 1. rewrite dom_phase_unsubscribed by done.
  by rewrite subscription_check_subscribed.
Qed.

(** X7.  The registry decides what is polled.  An iteration on a server
    without a key for NewMessage performs no action of message detection (no
    message fetch, no write of the message holder, no delivery of a message),
    and likewise for DomainChange.  A server whose registry holds only other
    classes (a handler subscribed to [BaseEvent], say) therefore fetches
    nothing, and since its registry is not empty it never reaches the
    no-subscription exit either: the loop sleeps through the whole script. *)
Theorem registry_gates_the_fetches (s : Server) (t : list Action) :
  (forall env,
      handlers s !! NewMessage = None ->
      exists d,
        trace (fst (loop_body env {| srv := s; trace := t |}))
          = t ++ ASleep (sleep_interval s) :: d /\
        Forall (fun a => msg_action a = false) d) /\
  (forall env,
      handlers s !! DomainChange = None ->
      exists d,
        trace (fst (loop_body env {| srv := s; trace := t |}))
          = t ++ ASleep (sleep_interval s) :: d /\
        Forall (fun a => dom_action a = false) d) /\
  (forall envs,
      handlers s !! NewMessage = None ->
      handlers s !! DomainChange = None ->
      handlers s <> ∅ ->
      Forall (fun env => sleep_outcome env = None) envs ->
      while_true envs {| srv := s; trace := t |}
      = ({| srv := s; trace := t ++ map (fun _ => ASleep (sleep_interval s)) envs |},
         Pending)).
Proof.
  split; [| split].
  - intros env Hm. rewrite loop_body_phases.
    unfold bind at 1. rewrite sleep_phase_eq. simpl.
    destruct (sleep_outcome env) as [x |]; simpl; [by exists [] |].
    unfold bind at 1. rewrite msg_phase_unsubscribed by done.
    destruct (dom_phase_actions env
                {| srv := s; trace := t ++ [ASleep (sleep_interval s)] |})
      as (d & Hd & Fd).
    exists d. rewrite Hd. simpl. by rewrite <- app_assoc.
  - intros env Hd. rewrite loop_body_phases.
    unfold bind at 1. rewrite sleep_phase_eq. simpl.
    destruct (sleep_outcome env) as [x |]; simpl; [by exists [] |].
    set (w1 := {| srv := s; trace := t ++ [ASleep (sleep_interval s)] |}).
    destruct (msg_phase_actions env w1) as (dm & Hdm & Fdm).
    pose proof (discipline_setup _ neutral_no_dom_action) as D.
    pose proof (respects_msg_phase _ _ D env ltac:(done) ltac:(done) ltac:(done)
                  setup_store_msg w1) as [_ Hset].
    destruct (bind_fst_cases (msg_phase env)
                (fun _ => dom_phase env ;> subscription_check) w1) as [-> | [_ ->]].
    { exists dm. rewrite Hdm. simpl. by rewrite <- app_assoc. }
    assert (Hd2 : handlers (srv (fst (msg_phase env w1))) !! DomainChange = None).
    { destruct Hset as (_ & _ & _ & _ & _ & ->). exact Hd. }
    unfold bind at 1. rewrite dom_phase_unsubscribed by done.
    pose proof (respects_subscription_check _ _ D ltac:(done) (fst (msg_phase env w1)))
      as [(dc & Hdc & Fdc) _].
    exists (dm ++ dc). rewrite Hdc, Hdm. simpl. rewrite <- !app_assoc.
    split; [done | by apply Forall_app].
  - intros envs Hm Hd Hne Hall. revert t.
    induction Hall as [| env envs Hs _ IH]; intros t; simpl.
    + unfold pending. by rewrite app_nil_r.
    + unfold bind. rewrite loop_body_unrelated by done.
      rewrite IH. by rewrite <- app_assoc.
Qed.

Lemma registry_gates_the_fetches_witness :
  let h := {| hname := "h"; hbody := fun _ _ => None |} in
  let s := subscribe (OtherEvent "BaseEvent") h (init_default (Some 5)) in
  let m := {| msg_id := "m1"; msg_from_address := "ann@example.org"; msg_payload := "hello" |} in
  let env := {| sleep_outcome := None;
                msg_fetch := Returns (Some {| messages := [m] |});
                domain_fetch := Returns None |} in
  while_true [env; env; env] {| srv := s; trace := [] |}
  = ({| srv := s; trace := [] ++ map (fun _ => ASleep (sleep_interval s)) [env; env; env] |},
     Pending).
Proof.
  intros h s m env.
  apply (proj2 (proj2 (registry_gates_the_fetches s [])) [env; env; env]).
  - reflexivity.
  - reflexivity.
  - vm_compute. discriminate.
  - repeat constructor.
Defined.

(** ** Interruption *)

(** X8.  Let [runner] have completed the iterations [pre] on a server with a
    handler registered, and let the next iteration raise a BaseException
    that is no [Exception] (a KeyboardInterrupt during the sleep, a
    cancellation inside a fetch or a handler).  Then [runner] neither
    catches it nor closes the client nor logs: the exception leaves it from
    the world the iteration reached, whatever the script holds further.
    [run] answers a KeyboardInterrupt with its goodbye line alone and returns
    normally, without closing the event loop or the client; any other
    BaseException leaves [run] as well. *)
Theorem interruption_skips_the_cleanup
    (env : RunEnv) (pre : list TickEnv) (tk : TickEnv)
    (s : Server) (t : list Action) (w1 w2 : World) (e : exn) :
  handlers s <> ∅ ->
  runner (with_ticks pre env) {| srv := s; trace := t |} = (w1, Pending) ->
  loop_body tk w1 = (w2, Raise e) ->
  is_Exception e = false ->
  closes (trace w2) = closes t /\
  forall rest,
    runner (with_ticks (pre ++ tk :: rest) env) {| srv := s; trace := t |}
      = (w2, Raise e) /\
    run (with_ticks (pre ++ tk :: rest) env) {| srv := s; trace := t |}
      = match e with
        | KeyboardInterrupt =>
            log "Server is closing it's operations. Goodbye!" WARNING w2
        | _ => (w2, Raise e)
        end.
Proof.
  intros Hsub Hpre Hbody He.
  pose proof (discipline_setup _ neutral_no_close) as D.
  destruct (runner_loop_entry env {| srv := s; trace := t |})
    as [(wb & x & Hesc) | (w0 & Hmv & Hrun)].
  { rewrite Hesc in Hpre. discriminate. }
  assert (Hh0 : handlers (srv w0) <> ∅).
  { destruct Hmv as [_ (_ & _ & _ & _ & _ & Hh)]. simpl in Hh. by rewrite Hh. }
  assert (Ew : while_true pre w0 = (w1, Pending)).
  { rewrite Hrun in Hpre. unfold try_except_Exception in Hpre.
    destruct (while_true pre w0) as [w1' [[] | x |]]; [discriminate | | exact Hpre].
    destruct (is_Exception x); [| discriminate].
    unfold bind, close, emit in Hpre. simpl in Hpre. rewrite log_eq in Hpre.
    discriminate. }
  pose proof (while_true_subscribed pre w0 Hh0) as Hmv1. rewrite Ew in Hmv1. simpl in Hmv1.
  assert (Hh1 : handlers (srv w1) <> ∅).
  { destruct Hmv1 as [_ (_ & _ & _ & _ & _ & Hh)]. by rewrite Hh. }
  pose proof (loop_body_subscribed tk w1 Hh1) as Hmv2. rewrite Hbody in Hmv2. simpl in Hmv2.
  pose proof (moves_trans _ _ D _ _ _ (moves_trans _ _ D _ _ _ Hmv Hmv1) Hmv2) as Hall.
  destruct Hall as [(d & Hd & Fd) _]. simpl in Hd.
  split.
  { unfold closes. rewrite Hd, count_app, (count_none is_close d Fd). lia. }
  intros rest.
  assert (Hr : runner (with_ticks (pre ++ tk :: rest) env) {| srv := s; trace := t |}
               = (w2, Raise e)).
  { rewrite Hrun. unfold try_except_Exception.
    rewrite (while_true_pending pre w0 w1 (tk :: rest) Ew). simpl.
    unfold bind at 1. rewrite Hbody. simpl. by rewrite He. }
  split; [exact Hr |].
  unfold run, try_except_KeyboardInterrupt. unfold bind at 1. rewrite Hr.
  by destruct e.
Qed.

Lemma interruption_skips_the_cleanup_witness :
  let h := {| hname := "h"; hbody := fun _ _ => None |} in
  let s := on_new_message h (init (Some 1) (Some false) None (Some false) (Some true)) in
  let quiet := {| sleep_outcome := None; msg_fetch := Returns None;
                  domain_fetch := Returns None |} in
  let tk := {| sleep_outcome := Some KeyboardInterrupt; msg_fetch := Returns None;
               domain_fetch := Returns None |} in
  let env := {| banner_read := Returns "banner"; clock := "12:00:00"; ticks := [] |} in
  let w1 := fst (runner (with_ticks [quiet] env) (start s)) in
  let w2 := fst (loop_body tk w1) in
  closes (trace w2) = closes [] /\
  forall rest,
    runner (with_ticks ([quiet] ++ tk :: rest) env) {| srv := s; trace := [] |}
      = (w2, Raise KeyboardInterrupt) /\
    run (with_ticks ([quiet] ++ tk :: rest) env) {| srv := s; trace := [] |}
      = log "Server is closing it's operations. Goodbye!" WARNING w2.
Proof.
  intros h s quiet tk env w1 w2.
  apply (interruption_skips_the_cleanup env [quiet] tk s [] w1 w2 KeyboardInterrupt).
  - vm_compute. discriminate.
  - vm_compute. reflexivity.
  - vm_compute. reflexivity.
  - reflexivity.
Defined.

(** ** Polling leaves the set-up alone *)

(** X9.  Only registration changes the registry, and nothing changes the
    configuration: the logger, dispatch, the two checks, an iteration of the
    loop, [runner] and [run] all end on a server with the configuration and
    the registry they started from.  So the handlers registered before [run]
    are the handlers throughout, and the sleep interval is the same in every
    iteration. *)
Theorem polling_keeps_the_setup (op : Op) (w : World) :
  is_registration op = false ->
  same_setup (srv w) (srv (apply_op op w)) /\
  sleep_interval (srv (apply_op op w)) = sleep_interval (srv w).
Proof.
  intros Hop.
  assert (H : same_setup (srv w) (srv (apply_op op w))).
  { pose proof (discipline_setup (fun _ => True) ltac:(done)) as D.
    destruct op; simpl in *; try discriminate.
    - by apply (respects_log _ _ D message sev w).
    - by apply (respects_dispatch _ _ D event ltac:(done) w).
    - by apply (respects_check_for_new_messages _ _ D fetch
                  ltac:(done) ltac:(done) ltac:(done) setup_store_msg w).
    - by apply (respects_check_for_new_domain _ _ D fetch
                  ltac:(done) ltac:(done) ltac:(done) setup_store_domain w).
    - by apply (respects_loop_body _ _ D env ltac:(done)
                  setup_store_msg setup_store_domain w).
    - by apply (respects_runner _ _ D env ltac:(done)
                  setup_store_msg setup_store_domain w).
    - by apply (respects_run _ _ D env ltac:(done)
                  setup_store_msg setup_store_domain w). }
  split; [exact H |].
  destruct H as (_ & _ & Hr & _). unfold sleep_interval. by rewrite Hr.
Qed.

Lemma polling_keeps_the_setup_witness :
  let h := {| hname := "h"; hbody := fun _ _ => None |} in
  let w := start (on_new_message h (init_default (Some 0))) in
  let m := {| msg_id := "m1"; msg_from_address := "ann@example.org"; msg_payload := "hello" |} in
  let env := {| banner_read := Returns "banner"; clock := "12:00:00";
                ticks := [ {| sleep_outcome := None;
                              msg_fetch := Returns (Some {| messages := [m] |});
                              domain_fetch := Returns None |} ] |} in
  same_setup (srv w) (srv (apply_op (OpRun env) w)) /\
  sleep_interval (srv (apply_op (OpRun env) w)) = sleep_interval (srv w).
Proof.
  intros h w m env.
  apply (polling_keeps_the_setup (OpRun env) w). reflexivity.
Defined.

(** ** Deliveries over a script *)

Lemma msg_changed_false s m :
  msg_changed (_last_msg s) m = false <-> held_msg_id s = Some (msg_id m).
Proof.
  unfold msg_changed, held_msg_id. destruct (_last_msg s) as [| x l]; [done |].
  rewrite negb_false_iff, String.eqb_eq. split; [by intros -> | by intros [= ->]].
Qed.

Lemma domain_changed_false s d :
  domain_changed (_last_domain s) d = false <-> held_domain_id s = Some (dom_id d).
Proof.
  unfold domain_changed, held_domain_id. destruct (_last_domain s) as [| x l]; [done |].
  rewrite negb_false_iff, String.eqb_eq. split; [by intros -> | by intros [= ->]].
Qed.

Lemma subscription_check_ok w w' : subscription_check w = (w', Ok tt) -> w' = w.
Proof.
  unfold subscription_check, bind, get, close, emit, raise, ret. simpl.
  case_decide; [discriminate | by intros [= <-]].
Qed.

(** A dispatch that returns has called every handler of the class. *)
Lemma dispatch_ok e hs s t w' :
  handlers s !! type_of e = Some hs ->
  dispatch e {| srv := s; trace := t |} = (w', Ok tt) ->
  w' = {| srv := s; trace := t ++ completed hs e |}.
Proof.
  intros Hh. unfold dispatch, bind, get. simpl. rewrite Hh. simpl.
  destruct (for_handlers_run hs e {| srv := s; trace := t |})
    as (done & rest & -> & [[-> ->] | (h & x & rest' & _ & _ & ->)]).
  - rewrite app_nil_r. by intros [= <-].
  - discriminate.
Qed.

Lemma msg_calls_app t1 t2 : msg_calls (t1 ++ t2) = msg_calls t1 ++ msg_calls t2.
Proof.
  induction t1 as [| a t1 IH]; [done |].
  destruct a as [| | | | | | | h [m | d | c] | | |]; simpl; by rewrite IH.
Qed.

Lemma dom_calls_app t1 t2 : dom_calls (t1 ++ t2) = dom_calls t1 ++ dom_calls t2.
Proof.
  induction t1 as [| a t1 IH]; [done |].
  destruct a as [| | | | | | | h [m | d | c] | | |]; simpl; by rewrite IH.
Qed.

Lemma msg_calls_none d : Forall (fun a => msg_action a = false) d -> msg_calls d = [].
Proof.
  induction 1 as [| a d Ha _ IH]; [done |].
  destruct a as [| | | | | | | h [m | x | c] | | |]; simpl in *; done.
Qed.

Lemma dom_calls_none d : Forall (fun a => dom_action a = false) d -> dom_calls d = [].
Proof.
  induction 1 as [| a d Ha _ IH]; [done |].
  destruct a as [| | | | | | | h [m | x | c] | | |]; simpl in *; done.
Qed.

Lemma msg_calls_completed hs m :
  msg_calls (completed hs (NewMessageEv m)) = deliveries hs m.
Proof. induction hs as [| h hs IH]; simpl; [done | by rewrite <- IH]. Qed.

Lemma dom_calls_completed hs d :
  dom_calls (completed hs (DomainChangeEv d)) = deliveries hs d.
Proof. induction hs as [| h hs IH]; simpl; [done | by rewrite <- IH]. Qed.

Lemma msg_calls_log_lines s message sev : msg_calls (log_lines s message sev) = [].
Proof.
  apply msg_calls_none. eapply Forall_impl; [apply log_lines_print |].
  intros a Ha. simpl in Ha. by destruct a.
Qed.

Lemma dom_calls_log_lines s message sev : dom_calls (log_lines s message sev) = [].
Proof.
  apply dom_calls_none. eapply Forall_impl; [apply log_lines_print |].
  intros a Ha. simpl in Ha. by destruct a.
Qed.

(** A message phase that returns: what the holder carries and what was
    delivered. *)
Lemma msg_phase_ok env hs s t w2 :
  handlers s !! NewMessage = Some hs ->
  msg_phase env {| srv := s; trace := t |} = (w2, Ok tt) ->
  held_msg_id (srv w2)
    = match fetched_msg env with
      | Some m => Some (msg_id m)
      | None => held_msg_id s
      end /\
  msg_calls (trace w2)
    = msg_calls t ++
      match fetched_msg env with
      | Some m => if decide (held_msg_id s = Some (msg_id m)) then [] else deliveries hs m
      | None => []
      end.
Proof.
  intros Hh. unfold msg_phase, bind at 1, get. simpl. rewrite Hh.
  rewrite decide_True by done. unfold fetched_msg.
  destruct (msg_fetch env) as [[[[| m ms]] |] | x].
  - intros [= <-]. simpl. rewrite msg_calls_app. simpl. by rewrite app_nil_r.
  - destruct (msg_changed (_last_msg s) m) eqn:Ec.
    + rewrite check_for_new_messages_changed by done. unfold bind at 1.
      destruct (dispatch _ _) as [w3 [[] | x |]] eqn:Ed; [| discriminate | discriminate].
      apply (dispatch_ok _ hs) in Ed; [| exact Hh]. subst w3.
      rewrite log_eq. intros [= <-]. simpl. split; [done |].
      rewrite !msg_calls_app, msg_calls_completed, msg_calls_log_lines. simpl.
      rewrite !app_nil_r. rewrite decide_False; [done |].
      intros Hheld. apply msg_changed_false in Hheld. congruence.
    + rewrite check_for_new_messages_unchanged by done. intros [= <-]. simpl.
      apply msg_changed_false in Ec. split; [done |].
      rewrite msg_calls_app. simpl. by rewrite decide_True, app_nil_r.
  - intros [= <-]. simpl. rewrite msg_calls_app. simpl. by rewrite app_nil_r.
  - discriminate.
Qed.

(** The domain phase and the closing test leave the message holder and the
    deliveries of messages as they are. *)
Lemma after_msg_phase_frame env w :
  let w' := fst ((dom_phase env ;> subscription_check) w) in
  _last_msg (srv w') = _last_msg (srv w) /\
  handlers (srv w') = handlers (srv w) /\
  msg_calls (trace w') = msg_calls (trace w).
Proof.
  simpl. pose proof discipline_msg_frame as D.
  assert (H : respects (fun _ => True)
                (fun a b => _last_msg b = _last_msg a /\ same_setup a b)
                (dom_phase env ;> subscription_check)).
  { apply (respects_bind _ _ D).
    - by apply (respects_dom_phase _ _ D).
    - intros _. by apply (respects_subscription_check _ _ D). }
  destruct (H w) as [_ [Hl (_ & _ & _ & _ & _ & Hh)]].
  destruct (dom_phase_actions env w) as (dd & Hdd & Fdd).
  split; [exact Hl |]. split; [exact Hh |].
  by rewrite Hdd, msg_calls_app, (msg_calls_none dd Fdd), app_nil_r.
Qed.

(** An iteration that returns, seen from the message side. *)
Lemma loop_body_ok_messages env hs s t w' :
  handlers s !! NewMessage = Some hs ->
  loop_body env {| srv := s; trace := t |} = (w', Ok tt) ->
  handlers (srv w') !! NewMessage = Some hs /\
  held_msg_id (srv w')
    = match fetched_msg env with
      | Some m => Some (msg_id m)
      | None => held_msg_id s
      end /\
  msg_calls (trace w')
    = msg_calls t ++
      match fetched_msg env with
      | Some m => if decide (held_msg_id s = Some (msg_id m)) then [] else deliveries hs m
      | None => []
      end.
Proof.
  intros Hh. rewrite loop_body_phases. unfold bind at 1. rewrite sleep_phase_eq.
  destruct (sleep_outcome env); [discriminate |]. simpl.
  unfold bind at 1.
  destruct (msg_phase env _) as [w2 [[] | x |]] eqn:E2; [| discriminate | discriminate].
  intros Hrest.
  destruct (msg_phase_ok env hs s _ w2 Hh E2) as [Hheld Hcalls].
  pose proof (discipline_setup (fun _ => True) ltac:(done)) as D.
  pose proof (respects_msg_phase _ _ D env ltac:(done) ltac:(done) ltac:(done)
                setup_store_msg {| srv := s; trace := t ++ [ASleep (sleep_interval s)] |})
    as [_ (_ & _ & _ & _ & _ & Hh2)].
  rewrite E2 in Hh2. simpl in Hh2.
  destruct (after_msg_phase_frame env w2) as (Hl & Hh3 & Hc).
  rewrite Hrest in Hl, Hh3, Hc. simpl in Hl, Hh3, Hc.
  split; [by rewrite Hh3, Hh2 |].
  split.
  - unfold held_msg_id in *. by rewrite Hl.
  - rewrite Hc, Hcalls, msg_calls_app. simpl. by rewrite app_nil_r.
Qed.

(** X10.  What a handler of NewMessage receives over a run.  Let the loop
    have completed every iteration of a script on a server whose registry
    holds the handlers [hs] for NewMessage.  Then the message holder carries
    the identifier of the last message any fetch brought (or what it carried
    before, if none brought one), and the deliveries made are, in order,
    one delivery to each handler of [hs], in registration order, for each
    fetched message whose identifier differs from the identifier fetched
    before it; nothing else is delivered.  Fetches that bring nothing are
    skipped by both. *)
Theorem message_deliveries_over_a_script
    (envs : list TickEnv) (hs : list Handler)
    (s : Server) (t : list Action) (w' : World) :
  handlers s !! NewMessage = Some hs ->
  while_true envs {| srv := s; trace := t |} = (w', Pending) ->
  held_msg_id (srv w') = newest_msg_id (held_msg_id s) envs /\
  msg_calls (trace w')
    = msg_calls t ++ flat_map (deliveries hs) (changed_msgs (held_msg_id s) envs).
Proof.
  revert s t. induction envs as [| env envs IH]; intros s t Hh; simpl.
  - unfold pending. intros [= <-]. simpl. by rewrite app_nil_r.
  - unfold bind at 1. pose proof (total_loop_body env {| srv := s; trace := t |}) as Ht.
    destruct (loop_body env _) as [[s1 t1] [[] | x |]] eqn:E1;
      simpl in Ht; [| discriminate | done].
    intros Hrun.
    destruct (loop_body_ok_messages env hs s t _ Hh E1) as (Hh1 & Hheld & Hcalls).
    simpl in Hh1, Hheld, Hcalls.
    destruct (IH s1 t1 Hh1 Hrun) as [IH1 IH2].
    rewrite IH1, IH2, Hheld, Hcalls.
    destruct (fetched_msg env) as [m |]; simpl.
    + split; [done |]. case_decide as Hd.
      * rewrite app_nil_r. by rewrite Hd.
      * simpl. by rewrite <- app_assoc.
    + by rewrite app_nil_r.
Qed.

Lemma message_deliveries_over_a_script_witness :
  let h := {| hname := "h"; hbody := fun _ _ => None |} in
  let k := {| hname := "k"; hbody := fun _ _ => None |} in
  let s := on_new_message k (on_new_message h (init_default (Some 1))) in
  let a := {| msg_id := "a"; msg_from_address := "ann@example.org"; msg_payload := "one" |} in
  let b := {| msg_id := "b"; msg_from_address := "bob@example.org"; msg_payload := "two" |} in
  let tick f := {| sleep_outcome := None; msg_fetch := f; domain_fetch := Returns None |} in
  let envs := [ tick (Returns (Some {| messages := [a] |}));
                tick (Returns None);
                tick (Returns (Some {| messages := [a] |}));
                tick (Returns (Some {| messages := [b; a] |}));
                tick (Returns (Some {| messages := [a] |})) ] in
  let w' := fst (while_true envs {| srv := s; trace := [] |}) in
  held_msg_id (srv w') = newest_msg_id (held_msg_id s) envs /\
  msg_calls (trace w')
    = msg_calls [] ++ flat_map (deliveries [h; k]) (changed_msgs (held_msg_id s) envs).
Proof.
  intros h k s a b tick envs w'.
  apply (message_deliveries_over_a_script envs [h; k] s [] w').
  - reflexivity.
  - vm_compute. reflexivity.
Defined.

Lemma dom_phase_ok env hs s t w3 :
  handlers s !! DomainChange = Some hs ->
  dom_phase env {| srv := s; trace := t |} = (w3, Ok tt) ->
  held_domain_id (srv w3)
    = match fetched_domain env with
      | Some d => Some (dom_id d)
      | None => held_domain_id s
      end /\
  handlers (srv w3) = handlers s /\
  dom_calls (trace w3)
    = dom_calls t ++
      match fetched_domain env with
      | Some d => if decide (held_domain_id s = Some (dom_id d)) then [] else deliveries hs d
      | None => []
      end.
Proof.
  intros Hh. unfold dom_phase, bind at 1, get. simpl. rewrite Hh.
  rewrite decide_True by done. unfold fetched_domain.
  destruct (domain_fetch env) as [[[[| d ds]] |] | x].
  - intros [= <-]. simpl. rewrite dom_calls_app. simpl. by rewrite app_nil_r.
  - destruct (domain_changed (_last_domain s) d) eqn:Ec.
    + rewrite check_for_new_domain_changed by done. unfold bind at 1.
      destruct (dispatch _ _) as [w4 [[] | x |]] eqn:Ed; [| discriminate | discriminate].
      apply (dispatch_ok _ hs) in Ed; [| exact Hh]. subst w4.
      rewrite log_eq. intros [= <-]. simpl. split; [done |]. split; [done |].
      rewrite !dom_calls_app, dom_calls_completed, dom_calls_log_lines. simpl.
      rewrite !app_nil_r. rewrite decide_False; [done |].
      intros Hheld. apply domain_changed_false in Hheld. congruence.
    + rewrite check_for_new_domain_unchanged by done. intros [= <-]. simpl.
      apply domain_changed_false in Ec. split; [done |]. split; [done |].
      rewrite dom_calls_app. simpl. by rewrite decide_True, app_nil_r.
  - intros [= <-]. simpl. rewrite dom_calls_app. simpl. by rewrite app_nil_r.
  - discriminate.
Qed.

(** The message phase leaves the domain holder and the deliveries of
    domains as they are. *)
Lemma before_dom_phase_frame env w :
  let w' := fst (msg_phase env w) in
  _last_domain (srv w') = _last_domain (srv w) /\
  handlers (srv w') = handlers (srv w) /\
  dom_calls (trace w') = dom_calls (trace w).
Proof.
  simpl. pose proof discipline_domain_frame as D.
  destruct (respects_msg_phase _ _ D env ltac:(done) ltac:(done) ltac:(done)
              ltac:(done) w) as [_ [Hl (_ & _ & _ & _ & _ & Hh)]].
  destruct (msg_phase_actions env w) as (dm & Hdm & Fdm).
  split; [exact Hl |]. split; [exact Hh |].
  by rewrite Hdm, dom_calls_app, (dom_calls_none dm Fdm), app_nil_r.
Qed.

(** An iteration that returns, seen from the domain side. *)
Lemma loop_body_ok_domains env hs s t w' :
  handlers s !! DomainChange = Some hs ->
  loop_body env {| srv := s; trace := t |} = (w', Ok tt) ->
  handlers (srv w') !! DomainChange = Some hs /\
  held_domain_id (srv w')
    = match fetched_domain env with
      | Some d => Some (dom_id d)
      | None => held_domain_id s
      end /\
  dom_calls (trace w')
    = dom_calls t ++
      match fetched_domain env with
      | Some d => if decide (held_domain_id s = Some (dom_id d)) then [] else deliveries hs d
      | None => []
      end.
Proof.
  intros Hh. rewrite loop_body_phases. unfold bind at 1. rewrite sleep_phase_eq.
  destruct (sleep_outcome env); [discriminate |]. simpl.
  unfold bind at 1.
  destruct (before_dom_phase_frame env
              {| srv := s; trace := t ++ [ASleep (sleep_interval s)] |})
    as (Hl & Hh2 & Hc).
  destruct (msg_phase env _) as [[s2 t2] [[] | x |]] eqn:E2; [| discriminate | discriminate].
  simpl in Hl, Hh2, Hc.
  unfold bind at 1.
  destruct (dom_phase env _) as [w3 [[] | x |]] eqn:E3; [| discriminate | discriminate].
  intros Hsub. apply subscription_check_ok in Hsub. subst w'.
  assert (Hh' : handlers s2 !! DomainChange = Some hs) by (by rewrite Hh2).
  destruct (dom_phase_ok env hs s2 t2 w3 Hh' E3) as (Hheld & Hh3 & Hcalls).
  split; [by rewrite Hh3 |].
  split.
  - rewrite Hheld. unfold held_domain_id. by rewrite Hl.
  - rewrite Hcalls, Hc, dom_calls_app. simpl. rewrite app_nil_r.
    unfold held_domain_id. by rewrite Hl.
Qed.

(** X11.  What a handler of DomainChange receives over a run.  Let the loop
    have completed every iteration of a script on a server whose registry
    holds the handlers [hs] for DomainChange.  Then the domain holder carries
    the identifier of the last domain any fetch brought (or what it carried
    before, if none brought one), and the deliveries made are, in order, one
    delivery to each handler of [hs], in registration order, for each fetched
    domain whose identifier differs from the identifier fetched before it;
    nothing else is delivered. *)
Theorem domain_deliveries_over_a_script
    (envs : list TickEnv) (hs : list Handler)
    (s : Server) (t : list Action) (w' : World) :
  handlers s !! DomainChange = Some hs ->
  while_true envs {| srv := s; trace := t |} = (w', Pending) ->
  held_domain_id (srv w') = newest_domain_id (held_domain_id s) envs /\
  dom_calls (trace w')
    = dom_calls t ++ flat_map (deliveries hs) (changed_domains (held_domain_id s) envs).
Proof.
  revert s t. induction envs as [| env envs IH]; intros s t Hh; simpl.
  - unfold pending. intros [= <-]. simpl. by rewrite app_nil_r.
  - unfold bind at 1. pose proof (total_loop_body env {| srv := s; trace := t |}) as Ht.
    destruct (loop_body env _) as [[s1 t1] [[] | x |]] eqn:E1;
      simpl in Ht; [| discriminate | done].
    intros Hrun.
    destruct (loop_body_ok_domains env hs s t _ Hh E1) as (Hh1 & Hheld & Hcalls).
    simpl in Hh1, Hheld, Hcalls.
    destruct (IH s1 t1 Hh1 Hrun) as [IH1 IH2].
    rewrite IH1, IH2, Hheld, Hcalls.
    destruct (fetched_domain env) as [d |]; simpl.
    + split; [done |]. case_decide as Hd.
      * rewrite app_nil_r. by rewrite Hd.
      * simpl. by rewrite <- app_assoc.
    + by rewrite app_nil_r.
Qed.

Lemma domain_deliveries_over_a_script_witness :
  let h := {| hname := "h"; hbody := fun _ _ => None |} in
  let k := {| hname := "k"; hbody := fun _ _ => None |} in
  let s := on_new_message k (on_new_domain h (init_default (Some 1))) in
  let a := {| dom_id := "a"; domain_name := "example.org" |} in
  let b := {| dom_id := "b"; domain_name := "example.net" |} in
  let m := {| msg_id := "m1"; msg_from_address := "ann@example.org"; msg_payload := "one" |} in
  let tick g := {| sleep_outcome := None;
                   msg_fetch := Returns (Some {| messages := [m] |});
                   domain_fetch := g |} in
  let envs := [ tick (Returns (Some {| domains := [a] |}));
                tick (Returns (Some {| domains := [] |}));
                tick (Returns (Some {| domains := [b] |}));
                tick (Returns (Some {| domains := [b; a] |})) ] in
  let w' := fst (while_true envs {| srv := s; trace := [] |}) in
  held_domain_id (srv w') = newest_domain_id (held_domain_id s) envs /\
  dom_calls (trace w')
    = dom_calls [] ++ flat_map (deliveries [h]) (changed_domains (held_domain_id s) envs).
Proof.
  intros h k s a b m tick envs w'.
  apply (domain_deliveries_over_a_script envs [h] s [] w').
  - reflexivity.
  - vm_compute. reflexivity.
Defined.

(** ** The no-subscription exit *)

(** X12.  The loop leaves through its no-subscription exit in its first
    iteration or never.  On a server with an empty registry the first
    iteration sleeps for the whole interval, fetches nothing, calls no
    handler, closes the client and raises, whatever the mail client would
    have answered.  On a server with any handler registered the loop itself
    never closes the client, however many iterations it performs and however
    it ends, and the registry stays what it was. *)
Theorem no_subscription_exit_is_first_or_never (s : Server) (t : list Action) :
  (handlers s = ∅ ->
   forall env rest,
     sleep_outcome env = None ->
     while_true (env :: rest) {| srv := s; trace := t |}
     = ({| srv := s; trace := t ++ [ASleep (sleep_interval s); AClose] |},
        Raise no_subscription)) /\
  (handlers s <> ∅ ->
   forall envs,
     let w' := fst (while_true envs {| srv := s; trace := t |}) in
     closes (trace w') = closes t /\ handlers (srv w') = handlers s).
Proof.
  split.
  - intros He env rest Hs. simpl. unfold bind at 1.
    rewrite loop_body_phases. unfold bind at 1. rewrite sleep_phase_eq, Hs. simpl.
    unfold bind at 1. rewrite msg_phase_unsubscribed by (simpl; by rewrite He).
    unfold bind at 1. rewrite dom_phase_unsubscribed by (simpl; by rewrite He).
    unfold subscription_check, bind, get, close, emit, raise. simpl.
    rewrite decide_True by done. norm_app. reflexivity.
  - intros Hne envs.
    destruct (while_true_subscribed envs {| srv := s; trace := t |} Hne)
      as [(d & Hd & Fd) (_ & _ & _ & _ & _ & Hh)].
    simpl in *. split; [| exact Hh].
    unfold closes. rewrite Hd, count_app, (count_none is_close d Fd). lia.
Qed.

Lemma no_subscription_exit_is_first_or_never_witness :
  let s := set_last_msg
             [ {| msg_id := "m0"; msg_from_address := "ann@example.org"; msg_payload := "old" |} ]
             (init_default (Some 4)) in
  let m := {| msg_id := "m1"; msg_from_address := "bob@example.org"; msg_payload := "new" |} in
  let env := {| sleep_outcome := None;
                msg_fetch := Returns (Some {| messages := [m] |});
                domain_fetch := Raises (PyException "unreachable") |} in
  while_true [env; env] {| srv := s; trace := [] |}
  = ({| srv := s; trace := [] ++ [ASleep (sleep_interval s); AClose] |},
     Raise no_subscription).
Proof.
  intros s m env.
  apply (proj1 (no_subscription_exit_is_first_or_never s [])); reflexivity.
Defined.
